(** * Movie data pipeline: title resolution and enrichment (src/etl.py)

    A shallow embedding of the title normaliser, the candidate generator and
    the OMDb resolver of [etl.py], with the properties the specification
    states about them. *)

From Stdlib Require Import String Ascii.
From Stdlib Require Import List NArith ZArith Bool Lia Floats.
Import ListNotations.

Local Open Scope N_scope.

(** ** Python strings

    A Python [str] is a sequence of Unicode code points. *)

Definition char := N.
Definition pystr := list char.

(** An ASCII literal, one code point per byte. *)
Definition str (s : string) : pystr :=
  map N_of_ascii (list_ascii_of_string s).
Arguments str s%_string.

Definition pystr_eqb (a b : pystr) : bool :=
  if list_eq_dec N.eq_dec a b then true else false.

(** [x in l] on a list of strings. *)
Definition str_in (x : pystr) (l : list pystr) : bool := existsb (pystr_eqb x) l.

(** [c in s] for a one-character [c]. *)
Definition char_in (c : char) (s : pystr) : bool := existsb (N.eqb c) s.

(** [Py_UNICODE_ISSPACE]: what [str.strip()] removes and [\s] matches in a
    [str] pattern. *)
Definition isspace (c : char) : bool :=
  ((0x09 <=? c) && (c <=? 0x0D)) || ((0x1C <=? c) && (c <=? 0x20))
  || (c =? 0x85) || (c =? 0xA0) || (c =? 0x1680)
  || ((0x2000 <=? c) && (c <=? 0x200A))
  || (c =? 0x2028) || (c =? 0x2029) || (c =? 0x202F) || (c =? 0x205F)
  || (c =? 0x3000).

Fixpoint lstrip (p : char -> bool) (s : pystr) : pystr :=
  match s with
  | c :: s' => if p c then lstrip p s' else s
  | [] => []
  end.

Fixpoint rstrip (p : char -> bool) (s : pystr) : pystr :=
  match s with
  | c :: s' =>
      match rstrip p s' with
      | [] => if p c then [] else [c]
      | r => c :: r
      end
  | [] => []
  end.

(** [s.strip()] and [s.strip(chars)]. *)
Definition strip_by (p : char -> bool) (s : pystr) : pystr := rstrip p (lstrip p s).
Definition strip (s : pystr) : pystr := strip_by isspace s.
Definition strip_chars (chars : pystr) (s : pystr) : pystr :=
  strip_by (fun c => char_in c chars) s.

(** ** Regular expressions

    The patterns of [etl.py] repeat single-character classes only, so the
    syntax has a class repetition instead of a general star. Matching is
    Python's: backtracking, ordered alternation, greedy repetition trying
    the longest run first and lazy repetition the shortest. *)

Inductive regex : Type :=
| Chr (p : char -> bool)
| Cat (r1 r2 : regex)
| Alt (r1 r2 : regex)
| Rep (greedy : bool) (p : char -> bool)
| Grp (i : nat) (r : regex)
| Eps
| Bos
| Eos.

Definition groups := list (nat * pystr).
Definition mresult := option (pystr * groups).
Definition cont := pystr -> groups -> mresult.

Definition orelse (a : mresult) (b : mresult) : mresult :=
  match a with Some m => Some m | None => b end.

Fixpoint rep_greedy (p : char -> bool) (s : pystr) (g : groups) (k : cont) : mresult :=
  match s with
  | c :: s' => if p c then orelse (rep_greedy p s' g k) (k s g) else k s g
  | [] => k [] g
  end.

Fixpoint rep_lazy (p : char -> bool) (s : pystr) (g : groups) (k : cont) : mresult :=
  orelse (k s g)
    match s with
    | c :: s' => if p c then rep_lazy p s' g k else None
    | [] => None
    end.

(** [n0] is the length of the subject string: [^] holds where nothing of it
    has been consumed. [$] (no MULTILINE) holds at the end and before a
    final newline. *)
Fixpoint run (n0 : nat) (r : regex) (s : pystr) (g : groups) (k : cont) : mresult :=
  match r with
  | Chr p => match s with c :: s' => if p c then k s' g else None | [] => None end
  | Cat r1 r2 => run n0 r1 s g (fun s1 g1 => run n0 r2 s1 g1 k)
  | Alt r1 r2 => orelse (run n0 r1 s g k) (run n0 r2 s g k)
  | Rep true p => rep_greedy p s g k
  | Rep false p => rep_lazy p s g k
  | Grp i r1 =>
      run n0 r1 s g (fun s1 g1 => k s1 ((i, firstn (length s - length s1)%nat s) :: g1))
  | Eps => k s g
  | Bos => if Nat.eqb (length s) n0 then k s g else None
  | Eos => match s with
           | [] => k s g
           | [c] => if c =? 0x0A then k s g else None
           | _ => None
           end
  end.

(** A match starting exactly at [s]: the text left after it and its groups. *)
Definition match_at (n0 : nat) (r : regex) (s : pystr) : mresult :=
  run n0 r s [] (fun s' g' => Some (s', g')).

(** [re.match]. *)
Definition re_match (r : regex) (s : pystr) : mresult := match_at (length s) r s.

Fixpoint search_from (n0 : nat) (r : regex) (s : pystr) : mresult :=
  orelse (match_at n0 r s)
    match s with
    | _ :: s' => search_from n0 r s'
    | [] => None
    end.

(** [re.search]: the leftmost match. *)
Definition re_search (r : regex) (s : pystr) : mresult := search_from (length s) r s.

(** [m.group(i)]. *)
Fixpoint group (i : nat) (g : groups) : option pystr :=
  match g with
  | (j, t) :: g' => if Nat.eqb i j then Some t else group i g'
  | [] => None
  end.

(** [re.sub] with a constant replacement. [skip] counts the characters of
    the current match still to be passed over. An empty match emits the
    replacement and copies the character it stands before. *)
Fixpoint sub_loop (n0 : nat) (r : regex) (repl : pystr) (skip : nat) (s : pystr) : pystr :=
  match s with
  | [] => match match_at n0 r [] with Some _ => repl | None => [] end
  | c :: s' =>
      match skip with
      | S n => sub_loop n0 r repl n s'
      | O =>
          match match_at n0 r s with
          | Some (rest, _) =>
              match (length s - length rest)%nat with
              | O => repl ++ c :: sub_loop n0 r repl 0 s'
              | S n => repl ++ sub_loop n0 r repl n s'
              end
          | None => c :: sub_loop n0 r repl 0 s'
          end
      end
  end.

Definition re_sub (r : regex) (repl : pystr) (s : pystr) : pystr :=
  sub_loop (length s) r repl 0 s.

(** Pattern pieces. *)
Definition lit (c : char) : regex := Chr (N.eqb c).
Definition dot : char -> bool := fun c => negb (c =? 0x0A).          (* . *)
Definition notc (c : char) : char -> bool := fun x => negb (x =? c).  (* [^c] *)
Definition star (p : char -> bool) : regex := Rep true p.
Definition plus (p : char -> bool) : regex := Cat (Chr p) (Rep true p).
Definition lazy_star (p : char -> bool) : regex := Rep false p.
Definition seq (rs : list regex) : regex := fold_right Cat Eps rs.

Fixpoint alts (r : regex) (rs : list regex) : regex :=
  match rs with
  | r' :: rs' => Alt r (alts r' rs')
  | [] => r
  end.

(** IGNORECASE. A literal matches a character whose simple lower-case
    mapping is the literal's, or one of sre's extra equivalents of it.
    [sre_lower] is the mapping on the code points it sends to a letter that
    occurs in a pattern of [etl.py]; on the others it is taken as the
    identity, which gives the same matches. *)
Definition sre_lower (c : char) : char :=
  if (0x41 <=? c) && (c <=? 0x5A) then c + 0x20
  else if (0xC0 <=? c) && (c <=? 0xDE) && negb (c =? 0xD7) then c + 0x20
  else if c =? 0x130 then 0x69
  else if c =? 0x212A then 0x6B
  else c.

Definition ignorecase_fixes (lo : char) : list char :=
  if lo =? 0x69 then [0x131] else if lo =? 0x73 then [0x17F] else [].

Definition lit_i (c : char) : regex :=
  Chr (fun x => (sre_lower x =? sre_lower c)
                || char_in (sre_lower x) (ignorecase_fixes (sre_lower c))).

Definition word_i (w : pystr) : regex := seq (map lit_i w).

(** [tidy_whitespace] (etl.py:56). *)
Definition tidy_whitespace (s : pystr) : pystr :=
  strip (re_sub (plus isspace) (str " ") s).

(** ** Python values

    The values [r.json()] can return; [remove_diacritics] is handed one
    too. *)

#[warnings="-register-all"]
Inductive value : Type :=
| VNone
| VBool (b : bool)
| VInt (n : Z)
| VFloat (f : float)
| VStr (s : pystr)
| VList (l : list value)
| VDict (d : list (pystr * value)).

(** The exceptions the code can let out. [UnicodeEncodeError] is what
    [requests.get] raises on a text that cannot be encoded, a lone surrogate
    for one. *)
Inductive exn : Type :=
  AttributeError | TypeError | ValueError | OverflowError | UnicodeEncodeError.

(** ** The Unicode character database

    [unicodedata] is not part of the repository: its tables are a parameter.
    [decomposition c] is the full compatibility decomposition of [c] (the
    code points NFKD writes for it, [c] itself when it has none),
    [combining c] its canonical combining class, [decimal c] its value when
    it is a decimal digit, which is what [\d] matches and [int] reads. *)
Record unicodedata : Type := {
  decomposition : char -> pystr;
  combining : char -> N;
  decimal : char -> option N
}.

Section Normalizer.

Variable U : unicodedata.

(** Canonical ordering: a mark moves in front of the marks of higher class
    that precede it, never across a starter (class 0). *)
Fixpoint place_mark (c : char) (l : pystr) : pystr :=
  match l with
  | d :: l' =>
      if (0 <? combining U d) && (combining U d <? combining U c)
      then d :: place_mark c l'
      else c :: l
  | [] => [c]
  end.

Definition canonical_order (l : pystr) : pystr := fold_right place_mark [] l.

(** [unicodedata.normalize("NFKD", text)]. *)
Definition normalize_nfkd (text : pystr) : pystr :=
  canonical_order (flat_map (decomposition U) text).

(** [not unicodedata.combining(c)]. *)
Definition starter (c : char) : bool := combining U c =? 0.

(** The [str] branch of [remove_diacritics] (etl.py:53-54). *)
Definition strip_marks (text : pystr) : pystr :=
  filter starter (normalize_nfkd text).

(** [remove_diacritics] (etl.py:49). *)
Definition remove_diacritics (text : value) : value :=
  match text with
  | VStr s => VStr (strip_marks s)
  | _ => text
  end.

Definition isdigit (c : char) : bool :=
  match decimal U c with Some _ => true | None => false end.

(** The pattern [\s*\(\d{4}\)\s*$] (etl.py:63). *)
Definition trailing_year_re : regex :=
  seq [star isspace; lit 0x28; Chr isdigit; Chr isdigit; Chr isdigit; Chr isdigit;
       lit 0x29; star isspace; Eos].

(** [base_clean] (etl.py:62). *)
Definition base_clean (title : pystr) : pystr :=
  let t := strip (re_sub trailing_year_re [] title) in
  let t := strip_chars [0x20; 0x22; 0x27] t in
  tidy_whitespace t.

(** The pattern of etl.py:68, IGNORECASE: [^], group 1 a greedy run of [.],
    a comma, [\s*], group 2 [The|A|An], [$]. *)
Definition trailing_article_re : regex :=
  seq [Bos; Grp 1 (star dot); lit_i 0x2C; star isspace;
       Grp 2 (alts (word_i (str "The")) [word_i (str "A"); word_i (str "An")]); Eos].

(** [move_trailing_article] (etl.py:67). *)
Definition move_trailing_article (t : pystr) : pystr :=
  match re_match trailing_article_re t with
  | Some (_, g) =>
      match group 2 g, group 1 g with
      | Some g2, Some g1 => strip (g2 ++ str " " ++ g1)
      | _, _ => t
      end
  | None => t
  end.

(** The pattern
    [\s*\(.*?(a\.k\.a\.|aka|original|original title|la|le|der|el|cite|cité|versión|version).*?\)\s*]
    (etl.py:74), IGNORECASE. *)
Definition marked_paren_re : regex :=
  seq [star isspace; lit_i 0x28; lazy_star dot;
       Grp 1 (alts (word_i (str "a.k.a."))
                [word_i (str "aka"); word_i (str "original");
                 word_i (str "original title"); word_i (str "la");
                 word_i (str "le"); word_i (str "der"); word_i (str "el");
                 word_i (str "cite"); word_i (str "cit" ++ [0xE9]);
                 word_i (str "versi" ++ [0xF3] ++ str "n"); word_i (str "version")]);
       lazy_star dot; lit_i 0x29; star isspace].

(** The pattern [\s*\([^)]*\)\s*] (etl.py:77). *)
Definition any_paren_re : regex :=
  seq [star isspace; lit 0x28; star (notc 0x29); lit 0x29; star isspace].

(** [remove_parenthetical_alternates] (etl.py:71). *)
Definition remove_parenthetical_alternates (t : pystr) : pystr :=
  let t2 := re_sub marked_paren_re (str " ") t in
  let t2 := re_sub any_paren_re (str " ") t2 in
  tidy_whitespace t2.

(** The pattern [\(([^)]+)\)] (etl.py:81). *)
Definition first_paren_re : regex :=
  seq [lit 0x28; Grp 1 (plus (notc 0x29)); lit 0x29].

(** [extract_parenthetical_alternate] (etl.py:80). *)
Definition extract_parenthetical_alternate (t : pystr) : option pystr :=
  match re_search first_paren_re t with
  | None => None
  | Some (_, g) =>
      match group 1 g with
      | Some inner =>
          let inside := strip inner in
          if (length inside <=? 30)%nat && negb (char_in 0x2C inside)
          then Some inside else None
      | None => None
      end
  end.

(** Truth value of a string, and of an optional one ([None] is false). *)
Definition nonempty (s : pystr) : bool := match s with [] => false | _ => true end.

(** One round of the first loop (etl.py:100-102). *)
Definition add_candidate (candidates : list pystr) (t : option pystr) : list pystr :=
  match t with
  | Some t => if nonempty t && negb (str_in t candidates)
              then candidates ++ [t] else candidates
  | None => candidates
  end.

(** One round of the second loop (etl.py:105-108); [c] runs over the copy
    [list(candidates)] taken before the loop, and is a [str], so that
    [remove_diacritics(c)] is [strip_marks c]. *)
Definition add_translit (candidates : list pystr) (c : pystr) : list pystr :=
  let translit := strip_marks c in
  if negb (pystr_eqb translit c) && negb (str_in translit candidates)
  then candidates ++ [translit] else candidates.

(** [generate_title_candidates] (etl.py:89). *)
Definition generate_title_candidates (original_title : pystr) : list pystr :=
  let base := base_clean original_title in
  if negb (nonempty base) then []
  else
    let moved := move_trailing_article base in
    let removed_paren := remove_parenthetical_alternates base in
    let alt := extract_parenthetical_alternate base in
    let candidates :=
      fold_left add_candidate [Some moved; Some removed_paren; alt; Some base] [] in
    let candidates := fold_left add_translit candidates candidates in
    map tidy_whitespace (filter nonempty candidates).

(** The pattern [\((\d{4})\)] (etl.py:162). *)
Definition year_re : regex :=
  seq [lit 0x28; Grp 1 (seq [Chr isdigit; Chr isdigit; Chr isdigit; Chr isdigit]);
       lit 0x29].

(** [int(s)] on a string of decimal digits. *)
Definition int_of_digits (s : pystr) : Z :=
  fold_left (fun acc c => match decimal U c with
                          | Some d => 10 * acc + Z.of_N d
                          | None => acc
                          end)%Z s 0%Z.

(** The [release_year] of a title (etl.py:162). *)
Definition release_year (t : pystr) : option Z :=
  match re_search year_re t with
  | Some (_, g) =>
      match group 1 g with
      | Some digits => Some (int_of_digits digits)
      | None => None
      end
  | None => None
  end.

End Normalizer.

(** Rows of the Unicode database for the code points of the examples
    (UnicodeData.txt); every other code point is left without decomposition
    and with class 0, as the ASCII ones are. *)
Definition ucd_rows : unicodedata := {|
  decomposition := fun c =>
    if c =? 0xA8 then [0x20; 0x308]        (* DIAERESIS: <compat> 0020 0308 *)
    else if c =? 0xB3 then [0x33]          (* SUPERSCRIPT THREE: <super> 0033 *)
    else if c =? 0xE9 then [0x65; 0x301]   (* E WITH ACUTE: 0065 0301 *)
    else [c];
  combining := fun c =>
    if c =? 0x301 then 230                 (* COMBINING ACUTE ACCENT *)
    else if c =? 0x308 then 230            (* COMBINING DIAERESIS *)
    else 0;
  decimal := fun c =>
    if (0x30 <=? c) && (c <=? 0x39) then Some (c - 0x30) else None
|}.


(** ** Notions for the statements and their proofs *)

(** The number of leading characters of [s] in the class [p]. *)
Fixpoint lead (p : char -> bool) (s : pystr) : nat :=
  match s with
  | c :: s' => if p c then S (lead p s') else O
  | [] => O
  end.

(** White-space runs replaced by one space each; [inside] tells that the
    run has begun. *)
Fixpoint squeeze (inside : bool) (s : pystr) : pystr :=
  match s with
  | c :: s' =>
      if isspace c then (if inside then squeeze true s' else 0x20 :: squeeze true s')
      else c :: squeeze false s'
  | [] => []
  end.

(** Every white-space character of [s] is a space that no white space
    follows. *)
Fixpoint neat (s : pystr) : bool :=
  match s with
  | c :: s' =>
      (if isspace c
       then (c =? 0x20) && match s' with d :: _ => negb (isspace d) | [] => true end
       else true)
      && neat s'
  | [] => true
  end.

(** [s] does not begin with a character of the class [p]. *)
Definition clear_head (p : char -> bool) (s : pystr) : bool :=
  match s with c :: _ => negb (p c) | [] => true end.


(** [s] is white space, a [(YYYY)] block and white space. *)
Definition year_tail (U : unicodedata) (s : pystr) : bool :=
  match lstrip isspace s with
  | a :: d1 :: d2 :: d3 :: d4 :: b :: w =>
      (0x28 =? a) && isdigit U d1 && isdigit U d2 && isdigit U d3 && isdigit U d4
      && (0x29 =? b) && forallb isspace w
  | _ => false
  end.

(** [s] up to its first suffix of that form. *)
Fixpoint cut_year (U : unicodedata) (s : pystr) : pystr :=
  if year_tail U s then []
  else match s with
       | c :: s' => c :: cut_year U s'
       | [] => []
       end.

(** [s] ends with a [(YYYY)] block. *)
Definition ends_with_year (U : unicodedata) (s : pystr) : bool :=
  match rev s with
  | b :: d4 :: d3 :: d2 :: d1 :: a :: _ =>
      (0x28 =? a) && isdigit U d1 && isdigit U d2 && isdigit U d3 && isdigit U d4
      && (0x29 =? b)
  | _ => false
  end.

(** The characters the second [strip] of [base_clean] removes (space,
    double quote, apostrophe), and the two quotes among them. *)
Definition quote_or_space (c : char) : bool := char_in c [0x20; 0x22; 0x27].
Definition is_quote (c : char) : bool := (c =? 0x22) || (c =? 0x27).

(** [s] begins or ends with a quote. *)
Definition quote_at_end (s : pystr) : bool :=
  negb (clear_head is_quote s) || negb (clear_head is_quote (rev s)).

(** The titles of the examples: "Amélie", "Alien³", a lone diaeresis with
    its year, and a title whose alternate is the title without its
    diaeresis. *)
Definition amelie : pystr := str "Am" ++ [0xE9] ++ str "lie".
Definition alien3 : pystr := str "Alien" ++ [0xB3].
Definition diaeresis_1995 : pystr := [0xA8] ++ str " (1995)".
Definition a_b_1995 : pystr := str "A " ++ [0xA8] ++ str " B (A B) (1995)".

(** ** Payload fields *)

(** [bool(v)], the test behind [v or default]. *)
Definition truthy (v : value) : bool :=
  match v with
  | VNone => false
  | VBool b => b
  | VInt n => negb (n =? 0)%Z
  | VFloat f => negb (f =? 0)%float
  | VStr s => nonempty s
  | VList l => match l with [] => false | _ => true end
  | VDict d => match d with [] => false | _ => true end
  end.

Definition or_else (v default : value) : value := if truthy v then v else default.

(** [v == s] for a string constant [s]. *)
Definition is_str (s : pystr) (v : value) : bool :=
  match v with VStr x => pystr_eqb x s | _ => false end.

Definition is_none (v : value) : bool :=
  match v with VNone => true | _ => false end.

(** [d.get(key)] on the items of a dict. *)
Fixpoint dict_get (d : list (pystr * value)) (key : pystr) : value :=
  match d with
  | (k, v) :: d' => if pystr_eqb key k then v else dict_get d' key
  | [] => VNone
  end.

(** The double nearest to an integer. *)
Definition float_of_Z (n : Z) : float := SF2Prim (binary_normalize prec emax n 0 false).

(** [float(n)] for an int: the nearest double, OverflowError past the
    largest one. *)
Definition float_of_int (n : Z) : exn + float :=
  let f := float_of_Z n in
  if PrimFloat.is_infinity f then inl OverflowError else inr f.

(** [int(f)] for a float: its integer part, ValueError for NaN,
    OverflowError for an infinity. *)
Definition int_of_float (f : float) : exn + Z :=
  match Prim2SF f with
  | S754_nan => inl ValueError
  | S754_infinity _ => inl OverflowError
  | S754_zero _ => inr 0%Z
  | S754_finite sign m e =>
      let a := Z.shiftl (Z.pos m) e in inr (if sign then - a else a)%Z
  end.

(** ** The release-year column

    [extract_movies] keeps the years of all titles in the column
    [release_year] of its frame (etl.py:162) and hands the cell of each row
    to the resolver (etl.py:164, 168). pandas is not part of the repository;
    what [Series.apply] and [iterrows] make of the results of the lambda is
    modelled as follows. Results that are all ints are stored, and handed
    over, as ints. Ints and None together are stored as 64-bit floats, None
    as NaN. Results that are all None stay None. *)
Definition is_some {A : Type} (x : option A) : bool :=
  match x with Some _ => true | None => false end.

Definition cell (column : list (option Z)) (x : option Z) : value :=
  if forallb is_some column
  then match x with Some n => VInt n | None => VNone end
  else if forallb (fun r => negb (is_some r)) column
  then VNone
  else match x with Some n => VFloat (float_of_Z n) | None => VFloat nan end.

(** The cells of the column, one for each title of the frame. *)
Definition release_year_cells (U : unicodedata) (titles : list pystr) : list value :=
  let column := map (release_year U) titles in
  map (cell column) column.

(** ** The resolver *)

(** [API_RETRIES] (etl.py:30). *)
Definition API_RETRIES : nat := 2.

(** The query of one lookup: [params] without its two constant entries
    [apikey] and [type]. *)
Record request : Type := { t : pystr; y : option Z }.

(** How the three calls of the [try] block end (etl.py:133-135): with a
    RequestException (raised by [get], by [raise_for_status], or by [json]
    where its error is one), which the handler catches; with another
    exception, which nothing catches; or with the decoded body. *)
Inductive reply : Type :=
| RequestException
| Raised (e : exn)
| Json (data : value).

Definition call : Type := (request * reply)%type.

Record EnrichmentRecord : Type := {
  imdb_id : value;
  plot : value;
  director : value;
  box_office : value;
  runtime : value;
  imdb_rating : option float
}.

(** [default] (etl.py:118). *)
Definition default : EnrichmentRecord := {|
  imdb_id := VNone;
  plot := VStr (str "Not Available");
  director := VStr (str "Unknown");
  box_office := VNone;
  runtime := VNone;
  imdb_rating := None
|}.

(** How a loop body ends: it falls through to the next round, the function
    returns, or an exception leaves the function. *)
Inductive flow : Type :=
| Next
| Return (r : EnrichmentRecord)
| Raise (e : exn).

Section Resolver.

(** [float(s)] and [int(s)] for a [str]: [None] when they raise
    ValueError. *)
Variable float_of_str : pystr -> option float.
Variable int_of_str : pystr -> option Z.

(** The lookup service: a reply to each request, and whatever it keeps
    between requests. *)
Variable World : Type.
Variable http_get : request -> World -> reply * World.

(** [float(v)]. *)
Definition py_float (v : value) : exn + float :=
  match v with
  | VFloat f => inr f
  | VBool b => inr (if b then 1 else 0)%float
  | VInt n => float_of_int n
  | VStr s => match float_of_str s with Some f => inr f | None => inl ValueError end
  | VNone | VList _ | VDict _ => inl TypeError
  end.

(** [int(v)]. *)
Definition py_int (v : value) : exn + Z :=
  match v with
  | VInt n => inr n
  | VBool b => inr (if b then 1 else 0)%Z
  | VFloat f => int_of_float f
  | VStr s => match int_of_str s with Some n => inr n | None => inl ValueError end
  | VNone | VList _ | VDict _ => inl TypeError
  end.

(** [float(x) if x not in (None, 'N/A') else None] (etl.py:144). *)
Definition rating_of (x : value) : exn + option float :=
  if is_none x || is_str (str "N/A") x then inr None
  else match py_float x with
       | inr f => inr (Some f)
       | inl e => inl e
       end.

(** The dict returned at etl.py:138-145. *)
Definition record_of (d : list (pystr * value)) : exn + EnrichmentRecord :=
  match rating_of (dict_get d (str "imdbRating")) with
  | inr rating =>
      inr {| imdb_id := dict_get d (str "imdbID");
             plot := or_else (dict_get d (str "Plot")) (VStr (str "Not Available"));
             director := or_else (dict_get d (str "Director")) (VStr (str "Unknown"));
             box_office := dict_get d (str "BoxOffice");
             runtime := dict_get d (str "Runtime");
             imdb_rating := rating |}
  | inl e => inl e
  end.

(** [data.get('Response') == 'True'] for a dict. *)
Definition authoritative (d : list (pystr * value)) : bool :=
  is_str (str "True") (dict_get d (str "Response")).

(** Lines 136-146 on the decoded body: [data.get] exists on a dict only. *)
Definition on_body (data : value) : flow :=
  match data with
  | VDict d =>
      if authoritative d
      then match record_of d with inr r => Return r | inl e => Raise e end
      else Next
  | _ => Raise AttributeError
  end.

(** [for attempt in range(n)] (etl.py:131-149): the outcome, the service
    afterwards, and the calls made. *)
Fixpoint attempts (n : nat) (rq : request) (w : World) : flow * World * list call :=
  match n with
  | O => (Next, w, [])
  | S n' =>
      let (rep, w1) := http_get rq w in
      match rep with
      | RequestException =>
          let '(out, w2, tr) := attempts n' rq w1 in (out, w2, (rq, rep) :: tr)
      | Raised e => (Raise e, w1, [(rq, rep)])
      | Json data => (on_body data, w1, [(rq, rep)])
      end
  end.

(** [for params_extra in params_list] (etl.py:128). *)
Fixpoint for_params (ps : list request) (w : World) : flow * World * list call :=
  match ps with
  | [] => (Next, w, [])
  | rq :: ps' =>
      let '(out, w1, tr) := attempts API_RETRIES rq w in
      match out with
      | Next => let '(out', w2, tr') := for_params ps' w1 in (out', w2, tr ++ tr')
      | _ => (out, w1, tr)
      end
  end.

(** [params_list] (etl.py:125-126): [int(year)] is evaluated when [year]
    is true, outside the [try]. *)
Definition params_list (candidate : pystr) (year : value) : exn + list request :=
  match (if truthy year
         then match py_int year with
              | inr n => inr [{| t := candidate; y := Some n |}]
              | inl e => inl e
              end
         else inr [])
  with
  | inr l => inr (l ++ [{| t := candidate; y := None |}])
  | inl e => inl e
  end.

(** [for candidate in title_candidates] (etl.py:123). *)
Fixpoint for_candidates (cs : list pystr) (year : value) (w : World)
  : flow * World * list call :=
  match cs with
  | [] => (Next, w, [])
  | c :: cs' =>
      match params_list c year with
      | inl e => (Raise e, w, [])
      | inr ps =>
          let '(out, w1, tr) := for_params ps w in
          match out with
          | Next =>
              let '(out', w2, tr') := for_candidates cs' year w1 in (out', w2, tr ++ tr')
          | _ => (out, w1, tr)
          end
      end
  end.

(** [fetch_omdb_data] (etl.py:116): the record returned or the exception
    raised, the service afterwards, and the calls made, in order. *)
Definition fetch_omdb_data (title_candidates : list pystr) (year : value) (w : World)
  : (exn + EnrichmentRecord) * World * list call :=
  let '(out, w', tr) := for_candidates title_candidates year w in
  match out with
  | Return r => (inr r, w', tr)
  | Raise e => (inl e, w', tr)
  | Next => (inr default, w', tr)
  end.

(** What [if year] and [int(year)] leave of the year: the exception of
    [int], or the year parameter of the lookups, none for a false year. *)
Definition year_param (year : value) : exn + option Z :=
  if truthy year
  then match py_int year with inr n => inr (Some n) | inl e => inl e end
  else inr None.

End Resolver.

Arguments attempts float_of_str {World} http_get n rq w.
Arguments for_params float_of_str {World} http_get ps w.
Arguments for_candidates float_of_str int_of_str {World} http_get cs year w.
Arguments fetch_omdb_data float_of_str int_of_str {World} http_get title_candidates year w.

(** The pairs of one candidate, for a year parameter or none; and the pairs
    a run has to visit, in order. *)
Definition pairs (candidate : pystr) (yo : option Z) : list request :=
  match yo with
  | Some n => [{| t := candidate; y := Some n |}; {| t := candidate; y := None |}]
  | None => [{| t := candidate; y := None |}]
  end.

Definition plan (cands : list pystr) (yo : option Z) : list request :=
  flat_map (fun c => pairs c yo) cands.

(** Projections of what a loop or the resolver hands back. *)
Definition outcome {A W : Type} (x : A * W * list call) : A := fst (fst x).
Definition calls {A W : Type} (x : A * W * list call) : list call := snd x.

(** How the reply of one call ends the round it was made in. *)
Definition reply_flow (float_of_str : pystr -> option float) (c : call) : flow :=
  match snd c with
  | RequestException => Next
  | Raised e => Raise e
  | Json data => on_body float_of_str data
  end.

Definition request_eq_dec (a b : request) : {a = b} + {a <> b}.
Proof.
  decide equality.
  - decide equality. apply Z.eq_dec.
  - apply (list_eq_dec N.eq_dec).
Defined.

(** How many of the calls [tr] are lookups of [rq]. *)
Definition lookups (rq : request) (tr : list call) : nat :=
  count_occ request_eq_dec (map fst tr) rq.

(** A call is quiet when the loops go on after it. *)
Definition quiet (float_of_str : pystr -> option float) (c : call) : Prop :=
  reply_flow float_of_str c = Next.

(** The shape of a run: the calls are quiet up to the last one, and the run
    ends on a call that is not quiet exactly when it does not fall
    through. *)
Definition shape (float_of_str : pystr -> option float) {World : Type}
    (x : flow * World * list call) : Prop :=
  (outcome x = Next /\ Forall (quiet float_of_str) (calls x))
  \/ (exists tr0 c, calls x = tr0 ++ [c] /\ Forall (quiet float_of_str) tr0
                    /\ outcome x = reply_flow float_of_str c /\ outcome x <> Next).

(** An authoritative reply: a JSON object whose [Response] is ['True']. *)
Definition is_hit (c : call) : bool :=
  match snd c with
  | Json (VDict d) => authoritative d
  | _ => false
  end.

(** A well-formed no-match reply: a JSON object whose [Response] is not
    ['True']. *)
Definition is_miss (c : call) : bool :=
  match snd c with
  | Json (VDict d) => negb (authoritative d)
  | _ => false
  end.

(** A transient failure. *)
Definition is_failure (c : call) : bool :=
  match snd c with
  | RequestException => true
  | Raised _ | Json _ => false
  end.

(** ** The state machine of the loops *)

(** Equality of requests, as a test. *)
Definition request_eqb (a b : request) : bool :=
  if request_eq_dec a b then true else false.

(** The trace the state machine of the loops allows. [todo] is what is left
    of the pairs to visit and [left] the number of attempts the pair at its
    head still has. A failure is followed by another attempt at the same
    pair while one is left, and by the next pair otherwise; a no-match is
    followed by the next pair at once; any other reply ends the run; and a
    run that no reply ends has visited every pair. *)
Fixpoint follows (todo : list request) (left : nat) (tr : list call) : bool :=
  match tr with
  | [] => match todo with [] => true | _ :: _ => false end
  | c :: tr' =>
      match todo with
      | [] => false
      | p :: todo' =>
          request_eqb (fst c) p
          && (if is_failure c
              then match left with
                   | S (S n) => follows todo (S n) tr'
                   | _ => follows todo' API_RETRIES tr'
                   end
              else if is_miss c then follows todo' API_RETRIES tr'
              else match tr' with [] => true | _ :: _ => false end)
      end
  end.

(** No two neighbours of [l] are the same request. *)
Fixpoint alternating (l : list request) : Prop :=
  match l with
  | a :: l' => match l' with b :: _ => a <> b | [] => True end /\ alternating l'
  | [] => True
  end.

(** A list of requests without its immediate repetitions. *)
Fixpoint squash (l : list request) : list request :=
  match l with
  | a :: l' =>
      match l' with
      | b :: _ => if request_eqb a b then squash l' else a :: squash l'
      | [] => [a]
      end
  | [] => []
  end.

(** ** Services for the examples *)

(** A service that answers every request the same way. *)
Definition always (rep : reply) (rq : request) (w : unit) : reply * unit := (rep, w).

(** A service that plays a script of replies, and fails once it is over. *)
Definition scripted (rq : request) (w : list reply) : reply * list reply :=
  match w with
  | rep :: w' => (rep, w')
  | [] => (RequestException, [])
  end.

(** [float] on the strings of the examples: ["7.5"] reads as 7.5; the
    others used there (the empty string, ["unrated"]) are not numerals and
    raise ValueError. *)
Definition float_rows (s : pystr) : option float :=
  if pystr_eqb s (str "7.5") then Some 7.5%float else None.

(** A rating [float] takes, or one the guard of etl.py:144 sets aside. *)
Definition rating_ok (float_of_str : pystr -> option float) (x : value) : bool :=
  is_none x || is_str (str "N/A") x
  || match py_float float_of_str x with inr _ => true | inl _ => false end.

(** A reply the resolver is written for: a failure, or a JSON object whose
    rating, when the object is authoritative, is one of the above. *)
Definition reply_ok (float_of_str : pystr -> option float) (c : call) : bool :=
  match snd c with
  | RequestException => true
  | Json (VDict d) =>
      implb (authoritative d) (rating_ok float_of_str (dict_get d (str "imdbRating")))
  | Raised _ | Json _ => false
  end.

(** A year the resolver is written for: a false one (None, 0), or one that
    [int] takes. *)
Definition year_ok (int_of_str : pystr -> option Z) (year : value) : bool :=
  match year_param int_of_str year with inr _ => true | inl _ => false end.

(** [int] on the strings of the examples: ["1999"] reads as 1999, the
    others are taken for no numerals. *)
Definition int_rows (s : pystr) : option Z :=
  if pystr_eqb s (str "1999") then Some 1999%Z else None.

(** Replies for the examples: a no-match, an authoritative reply with a
    numeral for rating, and one whose rating is the empty string. *)
Definition miss : reply :=
  Json (VDict [(str "Response", VStr (str "False"));
               (str "Error", VStr (str "Movie not found!"))]).

Definition hit : reply :=
  Json (VDict [(str "Response", VStr (str "True"));
               (str "imdbID", VStr (str "tt0133093"));
               (str "Director", VStr (str ""));
               (str "imdbRating", VStr (str "7.5"))]).

Definition hit_unrated : reply :=
  Json (VDict [(str "Response", VStr (str "True"));
               (str "imdbID", VStr (str "tt0133093"));
               (str "imdbRating", VStr [])]).

Definition query (title : string) (year : option Z) : request :=
  {| t := str title; y := year |}.

(** The record of [hit]: the defaults stand for the plot it lacks and for
    its empty director. *)
Definition hit_record : EnrichmentRecord :=
  {| imdb_id := VStr (str "tt0133093");
     plot := VStr (str "Not Available");
     director := VStr (str "Unknown");
     box_office := VNone;
     runtime := VNone;
     imdb_rating := Some 7.5%float |}.

(** ** The loaders' helpers *)

(** [s.startswith(pre)]. *)
Fixpoint starts_with (pre s : pystr) : bool :=
  match pre, s with
  | [], _ => true
  | a :: pre', c :: s' => (a =? c) && starts_with pre' s'
  | _ :: _, [] => false
  end.

(** [s.replace(old, new)] for a non-empty [old]: the occurrences of [old]
    from the left, none overlapping another; [skip] counts the characters
    of the current occurrence still to be passed over. *)
Fixpoint replace_loop (old new : pystr) (skip : nat) (s : pystr) : pystr :=
  match s with
  | [] => []
  | c :: s' =>
      match skip with
      | S n => replace_loop old new n s'
      | O =>
          if starts_with old s
          then new ++ replace_loop old new (length old - 1) s'
          else c :: replace_loop old new 0 s'
      end
  end.

Definition replace (old new s : pystr) : pystr := replace_loop old new 0 s.

(** [s.split(sep)] for a one-character [sep]. *)
Fixpoint split_on (sep : char) (s : pystr) : list pystr :=
  match s with
  | [] => [[]]
  | c :: s' =>
      if c =? sep then [] :: split_on sep s'
      else match split_on sep s' with
           | x :: r => (c :: x) :: r
           | [] => [[c]]
           end
  end.

(** [value or None]. *)
Definition or_none (v : value) : value := if truthy v then v else VNone.

(** [clean_box_office] (etl.py:225). *)
Definition clean_box_office (v : value) : value :=
  match v with
  | VStr s => or_none (VStr (strip (replace (str ",") [] (replace (str "$") [] s))))
  | _ => or_none v
  end.


(** [full_title_clean] (etl.py:216). *)
Definition full_title_clean (U : unicodedata) (title : pystr) : pystr :=
  let t := base_clean U title in
  let t := move_trailing_article t in
  let t := remove_parenthetical_alternates t in
  let t := strip_marks U t in
  tidy_whitespace t.

(** The placeholder of a film without genres (etl.py:196). *)
Definition no_genres : pystr := str "(no genres listed)".

(** The genre names of one [genres] field (etl.py:194-196). *)
Definition genre_names (genres : pystr) : list pystr :=
  filter (fun g => nonempty g && negb (pystr_eqb g no_genres))
         (map strip (split_on 0x7C genres)).

(** The statements [run_queries] executes (etl.py:304). *)
Definition sql_statements (sql_script : pystr) : list pystr :=
  map strip (filter (fun s => nonempty (strip s)) (split_on 0x3B sql_script)).

(** ** Further notions for the statements *)

(** [sep.join(xs)]: how a field or a script is written from its pieces. *)
Fixpoint join (sep : pystr) (xs : list pystr) : pystr :=
  match xs with
  | [] => []
  | [x] => x
  | x :: r => x ++ sep ++ join sep r
  end.

(** The characters of [s] that are not white space, in order. *)
Definition visible (s : pystr) : pystr := filter (fun c => negb (isspace c)) s.

(** [a] is one of the articles "The", "A", "An", in any case. *)
Definition is_article (a : pystr) : bool :=
  existsb (pystr_eqb (map sre_lower a)) [str "the"; str "a"; str "an"].

(** The four variants the first loop of [generate_title_candidates] goes
    through, for a cleaned title [base] (etl.py:96-100). *)
Definition variants (base : pystr) : list (option pystr) :=
  [Some (move_trailing_article base);
   Some (remove_parenthetical_alternates base);
   extract_parenthetical_alternate base;
   Some base].

(** Unicode leaves [c] alone: no decomposition, not a mark. *)
Definition unmarked (U : unicodedata) (c : char) : Prop :=
  decomposition U c = [c] /\ combining U c = 0.

(** A genre name as [transform_genres] records it: stripped, not empty, not
    the placeholder, and without the separator. *)
Definition genre_name (g : pystr) : bool :=
  nonempty g && negb (pystr_eqb g no_genres) && pystr_eqb (strip g) g
  && negb (char_in 0x7C g).

(** A statement as [run_queries] executes it: stripped, not empty, and
    without a semicolon. *)
Definition statement (s : pystr) : bool :=
  nonempty s && pystr_eqb (strip s) s && negb (char_in 0x3B s).


(** * Strings *)

Section StripFacts.

Variable p : char -> bool.

Lemma lstrip_app_all (a b : pystr) :
  forallb p a = true -> lstrip p (a ++ b) = lstrip p b.
Proof.
  induction a as [| c a IH]; [reflexivity |]. cbn.
  destruct (p c); [exact IH | discriminate].
Qed.

Lemma lstrip_clear (s : pystr) : clear_head p s = true -> lstrip p s = s.
Proof. destruct s as [| c s]; [reflexivity |]. cbn. destruct (p c); [discriminate | reflexivity]. Qed.

Lemma lstrip_head (s : pystr) : clear_head p (lstrip p s) = true.
Proof.
  induction s as [| c s IH]; [reflexivity |]. cbn.
  destruct (p c) eqn:E; [exact IH |]. cbn. rewrite E. reflexivity.
Qed.

Lemma lstrip_split (s : pystr) :
  exists l, s = l ++ lstrip p s /\ forallb p l = true.
Proof.
  induction s as [| c s (l & E & F)]; [exists []; auto |]. cbn.
  destruct (p c) eqn:P.
  - exists (c :: l). cbn. rewrite P, <- E. auto.
  - exists []. auto.
Qed.

Lemma lstrip_length (s : pystr) : (length (lstrip p s) + lead p s = length s)%nat.
Proof.
  induction s as [| c s IH]; [reflexivity |]. cbn.
  destruct (p c); cbn; lia.
Qed.

Lemma rstrip_all (w : pystr) : forallb p w = true -> rstrip p w = [].
Proof.
  induction w as [| c w IH]; [reflexivity |]. cbn.
  destruct (p c); [| discriminate]. intros F. rewrite (IH F). reflexivity.
Qed.

Lemma rstrip_nil (s : pystr) : rstrip p s = [] -> forallb p s = true.
Proof.
  induction s as [| c s IH]; [reflexivity |]. cbn.
  destruct (rstrip p s); [| discriminate].
  destruct (p c); [intros _; apply IH; reflexivity | discriminate].
Qed.

Lemma rstrip_app_all (x w : pystr) :
  forallb p w = true -> rstrip p (x ++ w) = rstrip p x.
Proof.
  intros F. induction x as [| c x IH]; [exact (rstrip_all w F) |].
  cbn. rewrite IH. reflexivity.
Qed.

Lemma rstrip_snoc (x : pystr) (c : char) : p c = false -> rstrip p (x ++ [c]) = x ++ [c].
Proof.
  intros P. induction x as [| a x IH]; cbn.
  - rewrite P. reflexivity.
  - rewrite IH. destruct (x ++ [c]) eqn:E; [| reflexivity].
    destruct x; discriminate.
Qed.

Lemma rstrip_cons (c : char) (s : pystr) :
  rstrip p (c :: s) = if forallb p (c :: s) then [] else c :: rstrip p s.
Proof.
  cbn. destruct (rstrip p s) eqn:R.
  - rewrite (rstrip_nil s R). destruct (p c); reflexivity.
  - destruct (p c); cbn; [| reflexivity].
    destruct (forallb p s) eqn:F; [| reflexivity].
    rewrite (rstrip_all s F) in R. discriminate.
Qed.

Lemma rstrip_head (s : pystr) : clear_head p s = true -> clear_head p (rstrip p s) = true.
Proof.
  destruct s as [| c s]; [reflexivity |]. cbn.
  destruct (p c) eqn:P; [discriminate |]. intros _.
  destruct (rstrip p s); cbn; rewrite P; reflexivity.
Qed.

Lemma rstrip_idempotent (s : pystr) : rstrip p (rstrip p s) = rstrip p s.
Proof.
  induction s as [| c s IH]; [reflexivity |].
  rewrite rstrip_cons. destruct (forallb p (c :: s)) eqn:F; [reflexivity |].
  rewrite rstrip_cons. cbn [forallb] in *. rewrite IH.
  destruct (p c) eqn:P; cbn [andb] in *; [| reflexivity].
  destruct (forallb p (rstrip p s)) eqn:G; [| reflexivity].
  exfalso. pose proof (rstrip_all _ G) as R. rewrite IH in R.
  rewrite (rstrip_nil s R) in F. discriminate.
Qed.

Lemma lstrip_rstrip (s : pystr) : lstrip p (rstrip p s) = rstrip p (lstrip p s).
Proof.
  induction s as [| c s IH]; [reflexivity |].
  cbn [lstrip]. destruct (p c) eqn:P.
  - rewrite <- IH. cbn. destruct (rstrip p s); cbn; rewrite P; reflexivity.
  - apply lstrip_clear, rstrip_head. cbn. rewrite P. reflexivity.
Qed.

(** A stripped string has none of the class at either end, and stripping
    it again changes nothing. *)
Lemma strip_by_ends (s : pystr) :
  lstrip p (strip_by p s) = strip_by p s /\ rstrip p (strip_by p s) = strip_by p s.
Proof.
  unfold strip_by. split.
  - apply lstrip_clear, rstrip_head, lstrip_head.
  - apply rstrip_idempotent.
Qed.

Lemma strip_by_fixed (s : pystr) :
  lstrip p s = s -> rstrip p s = s -> strip_by p s = s.
Proof. unfold strip_by. intros L R. rewrite L. exact R. Qed.

Lemma strip_by_rstrip (s : pystr) : strip_by p (rstrip p s) = strip_by p s.
Proof. unfold strip_by. rewrite lstrip_rstrip. apply rstrip_idempotent. Qed.

(** A string without trailing [p] has no suffix in [p] but the empty one. *)
Lemma rstrip_fixed_tail (x w : pystr) :
  rstrip p (x ++ w) = x ++ w -> forallb p w = true -> w = [].
Proof.
  intros R F. rewrite (rstrip_app_all x w F) in R.
  assert (length (rstrip p x) <= length x)%nat as L.
  { clear. induction x as [| c x IH]; [cbn; lia |].
    rewrite rstrip_cons. destruct (forallb p (c :: x)); cbn in *; lia. }
  rewrite R, length_app in L. destruct w; [reflexivity | cbn in L; lia].
Qed.

Lemma rstrip_clear_last (x : pystr) (c : char) :
  rstrip p (x ++ [c]) = x ++ [c] -> p c = false.
Proof.
  intros R. destruct (p c) eqn:P; [| reflexivity].
  assert (forallb p [c] = true) as F by (cbn; rewrite P; reflexivity).
  pose proof (rstrip_fixed_tail x [c] R F). discriminate.
Qed.

End StripFacts.

(** * Matching *)

Lemma orelse_none (a : mresult) : orelse a None = a.
Proof. destruct a; reflexivity. Qed.

(** A greedy run gives nothing back when what follows it cannot start with
    a character of the run. *)
Lemma rep_greedy_commit (p : char -> bool) (s : pystr) (g : groups) (k : cont) :
  (forall c s', p c = true -> k (c :: s') g = None) ->
  rep_greedy p s g k = k (lstrip p s) g.
Proof.
  intros K. induction s as [| c s IH]; [reflexivity |]. cbn.
  destruct (p c) eqn:P; [| reflexivity].
  rewrite IH, (K c s P). apply orelse_none.
Qed.

(** A greedy run at the end of a pattern takes the whole run. *)
Lemma rep_greedy_last (p : char -> bool) (s : pystr) (g : groups) :
  rep_greedy p s g (fun s' g' => Some (s', g')) = Some (lstrip p s, g).
Proof.
  induction s as [| c s IH]; [reflexivity |]. cbn.
  destruct (p c); [rewrite IH |]; reflexivity.
Qed.

(** White space and the end: [\s*$]. *)
Lemma rep_greedy_eos (n0 : nat) (s : pystr) (g : groups) :
  rep_greedy isspace s g
    (fun s1 g1 => run n0 Eos s1 g1 (fun s2 g2 => run n0 Eps s2 g2 (fun s' g' => Some (s', g'))))
  = if forallb isspace s then Some ([], g) else None.
Proof.
  induction s as [| c s IH]; [reflexivity |]. cbn [rep_greedy forallb].
  destruct (isspace c) eqn:P; cbn [andb].
  - rewrite IH. destruct (forallb isspace s) eqn:F; [reflexivity |].
    cbn. destruct s; [discriminate | reflexivity].
  - cbn. destruct s; [| reflexivity].
    destruct (N.eqb_spec c 0x0A); [subst; discriminate | reflexivity].
Qed.

Lemma sub_loop_skip_all (n0 : nat) (r : regex) (repl s : pystr) :
  sub_loop n0 r repl (length s) s
  = match match_at n0 r [] with Some _ => repl | None => [] end.
Proof. induction s as [| c s IH]; [reflexivity | exact IH]. Qed.

(** ** White-space runs *)

Lemma match_at_spaces (n0 : nat) (s : pystr) :
  match_at n0 (plus isspace) s
  = match s with
    | c :: s' => if isspace c then Some (lstrip isspace s', []) else None
    | [] => None
    end.
Proof.
  unfold match_at, plus. cbn [run]. destruct s as [| c s]; [reflexivity |].
  destruct (isspace c); [apply rep_greedy_last | reflexivity].
Qed.

Lemma sub_spaces (n0 : nat) (s : pystr) :
  sub_loop n0 (plus isspace) (str " ") 0 s = squeeze false s
  /\ sub_loop n0 (plus isspace) (str " ") (lead isspace s) s = squeeze true s.
Proof.
  induction s as [| c s [IH0 IH1]]; [split; reflexivity |].
  cbn [sub_loop lead squeeze]. rewrite match_at_spaces.
  destruct (isspace c) eqn:P.
  - split; [| exact IH1].
    pose proof (lstrip_length isspace s) as L.
    replace (length (c :: s) - length (lstrip isspace s))%nat with (S (lead isspace s))
      by (cbn [length]; lia).
    rewrite IH1. reflexivity.
  - rewrite IH0. split; reflexivity.
Qed.

Lemma tidy_whitespace_squeeze (s : pystr) : tidy_whitespace s = strip (squeeze false s).
Proof. unfold tidy_whitespace, re_sub. rewrite (proj1 (sub_spaces (length s) s)). reflexivity. Qed.

Lemma squeeze_neat (s : pystr) :
  neat (squeeze false s) = true
  /\ neat (squeeze true s) = true /\ clear_head isspace (squeeze true s) = true.
Proof.
  induction s as [| c s (N0 & N1 & H1)]; [repeat split |].
  cbn [squeeze]. destruct (isspace c) eqn:P.
  - repeat split; auto. cbn [neat]. rewrite N1.
    change (isspace 0x20) with true. cbn.
    destruct (squeeze true s); [reflexivity |]. cbn in H1. rewrite H1. reflexivity.
  - cbn [neat clear_head]. rewrite P, N0. repeat split.
Qed.

Lemma squeeze_clear (s : pystr) :
  clear_head isspace s = true -> squeeze true s = squeeze false s.
Proof. destruct s as [| c s]; [reflexivity |]. cbn. destruct (isspace c); [discriminate | reflexivity]. Qed.

Lemma neat_squeeze (s : pystr) : neat s = true -> squeeze false s = s.
Proof.
  induction s as [| c s IH]; [reflexivity |]. cbn [neat squeeze].
  intros N. apply andb_prop in N as [C N]. specialize (IH N).
  destruct (isspace c); [| rewrite IH; reflexivity].
  apply andb_prop in C as [C H]. apply N.eqb_eq in C. subst c.
  rewrite squeeze_clear, IH; [reflexivity |].
  destruct s; [reflexivity | exact H].
Qed.

Lemma neat_lstrip (p : char -> bool) (s : pystr) : neat s = true -> neat (lstrip p s) = true.
Proof.
  induction s as [| c s IH]; [reflexivity |]. cbn [lstrip].
  destruct (p c); [| auto]. intros N. apply IH.
  cbn in N. apply andb_prop in N. tauto.
Qed.

Lemma rstrip_same_head (p : char -> bool) (s r : pystr) (d : char) :
  rstrip p s = d :: r -> exists s', s = d :: s'.
Proof.
  destruct s as [| c s]; [discriminate |]. cbn.
  destruct (rstrip p s); [destruct (p c); [discriminate |] |];
    intros E; inversion E; subst; eauto.
Qed.

Lemma neat_rstrip (p : char -> bool) (s : pystr) : neat s = true -> neat (rstrip p s) = true.
Proof.
  induction s as [| c s IH]; [reflexivity |]. cbn [neat rstrip].
  intros N. apply andb_prop in N as [C N]. specialize (IH N).
  destruct (rstrip p s) as [| d r] eqn:R.
  - destruct (p c); [reflexivity |]. cbn. destruct (isspace c); [| reflexivity].
    apply andb_prop in C as [C _]. rewrite C. reflexivity.
  - cbn [neat] in *. rewrite IH, andb_true_r.
    destruct (rstrip_same_head p s r d R) as [s' E]. subst s. exact C.
Qed.

(** What [tidy_whitespace] returns. *)
Lemma tidy_whitespace_shape (s : pystr) :
  neat (tidy_whitespace s) = true
  /\ lstrip isspace (tidy_whitespace s) = tidy_whitespace s
  /\ rstrip isspace (tidy_whitespace s) = tidy_whitespace s.
Proof.
  rewrite tidy_whitespace_squeeze. split; [| apply strip_by_ends].
  apply neat_rstrip, neat_lstrip, squeeze_neat.
Qed.

Lemma tidy_whitespace_fixed (s : pystr) :
  neat s = true -> lstrip isspace s = s -> rstrip isspace s = s -> tidy_whitespace s = s.
Proof.
  intros N L R. rewrite tidy_whitespace_squeeze, (neat_squeeze s N).
  apply strip_by_fixed; assumption.
Qed.

(** * Cleaning a title *)

Section BaseCleanFacts.

Variable U : unicodedata.

Lemma rstrip_after (p : char -> bool) (x blk w : pystr) (c : char) :
  p c = false -> forallb p w = true ->
  rstrip p (x ++ (blk ++ [c]) ++ w) = x ++ blk ++ [c].
Proof.
  intros P W. rewrite app_assoc, rstrip_app_all by exact W.
  rewrite app_assoc, rstrip_snoc by exact P. rewrite <- app_assoc. reflexivity.
Qed.

Lemma match_at_trailing_year (n0 : nat) (s : pystr) :
  match_at n0 (trailing_year_re U) s = if year_tail U s then Some ([], []) else None.
Proof.
  unfold match_at, trailing_year_re, seq, star, lit. cbn [fold_right run].
  rewrite rep_greedy_commit.
  2:{ intros c s' P. destruct (N.eqb_spec 0x28 c); [subst; discriminate | reflexivity]. }
  unfold year_tail.
  destruct (lstrip isspace s) as [| a [| d1 [| d2 [| d3 [| d4 [| b w]]]]]];
    repeat match goal with
    | |- context [N.eqb ?x ?y] => destruct (N.eqb x y)
    | |- context [isdigit U ?x] => destruct (isdigit U x)
    end; try reflexivity.
  cbn [andb]. apply (rep_greedy_eos n0).
Qed.

Lemma sub_trailing_year (n0 : nat) (s : pystr) :
  sub_loop n0 (trailing_year_re U) [] 0 s = cut_year U s.
Proof.
  induction s as [| c s IH]; cbn [sub_loop cut_year]; rewrite match_at_trailing_year.
  - destruct (year_tail U []); reflexivity.
  - destruct (year_tail U (c :: s)); [| rewrite IH; reflexivity].
    cbn [length Nat.sub app]. rewrite sub_loop_skip_all, match_at_trailing_year.
    reflexivity.
Qed.

Lemma year_tail_block (p w : pystr) (d1 d2 d3 d4 : char) :
  isdigit U d1 = true -> isdigit U d2 = true -> isdigit U d3 = true -> isdigit U d4 = true ->
  forallb isspace w = true ->
  year_tail U (p ++ [0x28; d1; d2; d3; d4; 0x29] ++ w) = forallb isspace p.
Proof.
  intros D1 D2 D3 D4 W. unfold year_tail.
  destruct (forallb isspace p) eqn:F.
  - rewrite lstrip_app_all by exact F. cbn. rewrite D1, D2, D3, D4, W. reflexivity.
  - destruct (lstrip_split isspace (p ++ [0x28; d1; d2; d3; d4; 0x29] ++ w)) as (l & E & L).
    destruct (lstrip isspace (p ++ [0x28; d1; d2; d3; d4; 0x29] ++ w))
      as [| a [| e1 [| e2 [| e3 [| e4 [| b w']]]]]] eqn:S; try reflexivity.
    destruct (forallb isspace w') eqn:W'; [| rewrite !andb_false_r; reflexivity].
    destruct (N.eqb_spec 0x29 b) as [B |]; [| rewrite !andb_false_r; reflexivity].
    exfalso. subst b.
    assert (rstrip isspace (p ++ [0x28; d1; d2; d3; d4; 0x29] ++ w)
            = p ++ [0x28; d1; d2; d3; d4; 0x29]) as R1.
    { exact (rstrip_after isspace p [0x28; d1; d2; d3; d4] w 0x29 eq_refl W). }
    assert (rstrip isspace (l ++ [a; e1; e2; e3; e4; 0x29] ++ w')
            = l ++ [a; e1; e2; e3; e4; 0x29]) as R2.
    { exact (rstrip_after isspace l [a; e1; e2; e3; e4] w' 0x29 eq_refl W'). }
    change (a :: e1 :: e2 :: e3 :: e4 :: 0x29 :: w')
      with ([a; e1; e2; e3; e4; 0x29] ++ w') in E.
    rewrite E in R1 at 1. rewrite R2 in R1.
    (* l ++ block' = p ++ block: the blocks have the same length, so l = p *)
    assert (l = p) as LP.
    { apply (f_equal (@rev char)) in R1. rewrite !rev_app_distr in R1. cbn in R1.
      inversion R1 as [[Ea E4 E3 E2 E1 Er]]. apply (f_equal (@rev char)) in Er.
      rewrite !rev_involutive in Er. exact Er. }
    subst l. rewrite L in F. discriminate.
Qed.

Lemma cut_year_block (p w : pystr) (d1 d2 d3 d4 : char) :
  isdigit U d1 = true -> isdigit U d2 = true -> isdigit U d3 = true -> isdigit U d4 = true ->
  forallb isspace w = true ->
  cut_year U (p ++ [0x28; d1; d2; d3; d4; 0x29] ++ w) = rstrip isspace p.
Proof.
  intros D1 D2 D3 D4 W. induction p as [| c p IH].
  - pose proof (year_tail_block [] w d1 d2 d3 d4 D1 D2 D3 D4 W) as Y.
    cbn [app forallb] in Y. cbn [cut_year app]. rewrite Y. reflexivity.
  - rewrite rstrip_cons.
    pose proof (year_tail_block (c :: p) w d1 d2 d3 d4 D1 D2 D3 D4 W) as Y.
    cbn [app cut_year] in Y, IH |- *. rewrite Y.
    destruct (forallb isspace (c :: p)); [reflexivity |]. rewrite IH. reflexivity.
Qed.

Lemma year_tail_ends (x s : pystr) :
  rstrip isspace (x ++ s) = x ++ s -> year_tail U s = true ->
  ends_with_year U (x ++ s) = true.
Proof.
  intros R Y. unfold year_tail in Y.
  destruct (lstrip_split isspace s) as (l & E & L).
  destruct (lstrip isspace s) as [| a [| d1 [| d2 [| d3 [| d4 [| b w]]]]]]; try discriminate.
  apply andb_prop in Y as [Y W].
  change (a :: d1 :: d2 :: d3 :: d4 :: b :: w) with ([a; d1; d2; d3; d4; b] ++ w) in E.
  assert (w = []) as Wn.
  { apply (rstrip_fixed_tail isspace (x ++ l ++ [a; d1; d2; d3; d4; b]) w); [| exact W].
    rewrite <- !app_assoc. rewrite <- E. exact R. }
  subst w. rewrite app_nil_r in E. subst s.
  unfold ends_with_year. rewrite !rev_app_distr. cbn. exact Y.
Qed.

Lemma cut_year_fixed (x s : pystr) :
  rstrip isspace (x ++ s) = x ++ s -> ends_with_year U (x ++ s) = false ->
  cut_year U s = s.
Proof.
  revert x. induction s as [| c s IH]; intros x R N.
  - cbn. destruct (year_tail U []); reflexivity.
  - cbn [cut_year]. destruct (year_tail U (c :: s)) eqn:Y.
    + rewrite (year_tail_ends x (c :: s) R Y) in N. discriminate.
    + f_equal. apply (IH (x ++ [c])); rewrite <- app_assoc; assumption.
Qed.

Lemma base_clean_steps (title : pystr) :
  base_clean U title
  = tidy_whitespace (strip_chars [0x20; 0x22; 0x27] (strip (cut_year U title))).
Proof. unfold base_clean, re_sub. rewrite sub_trailing_year. reflexivity. Qed.

Lemma clear_quote_or_space (s : pystr) :
  clear_head isspace s = true -> clear_head is_quote s = true ->
  clear_head quote_or_space s = true.
Proof.
  destruct s as [| c s]; [reflexivity |]. unfold quote_or_space, is_quote. cbn.
  destruct (N.eqb_spec c 0x20); [subst; discriminate |].
  destruct (N.eqb_spec c 0x22); [discriminate |].
  destruct (N.eqb_spec c 0x27); [discriminate |]. reflexivity.
Qed.

Lemma clear_head_fixed (p : char -> bool) (s : pystr) :
  lstrip p s = s -> clear_head p s = true.
Proof. intros E. rewrite <- E. apply lstrip_head. Qed.

Lemma clear_last_fixed (p : char -> bool) (s : pystr) :
  rstrip p s = s -> clear_head p (rev s) = true.
Proof.
  intros R. destruct (rev s) as [| c r] eqn:E; [reflexivity |]. cbn.
  apply (f_equal (@rev char)) in E. rewrite rev_involutive in E. cbn in E.
  rewrite E in R. rewrite (rstrip_clear_last p (rev r) c R). reflexivity.
Qed.

Lemma rstrip_clear (p : char -> bool) (s : pystr) :
  clear_head p (rev s) = true -> rstrip p s = s.
Proof.
  destruct (rev s) as [| c r] eqn:E; apply (f_equal (@rev char)) in E;
    rewrite rev_involutive in E; cbn in E; subst s; [reflexivity |].
  cbn. intros P. apply rstrip_snoc. destruct (p c); [discriminate | reflexivity].
Qed.

(** C6, as amended. A title that ends with a [(YYYY)] block, white space
    around it or not, is cleaned to what is left before the block, stripped
    of white space, then of quotes and spaces at both ends, with its
    white-space runs collapsed. Cleaning a cleaned title again changes
    nothing provided the cleaned title does not itself end with a [(YYYY)]
    block or carry a quote at either end. *)
Theorem base_clean_trailing_year (title : pystr) :
  (forall (p w : pystr) (d1 d2 d3 d4 : char),
      title = p ++ [0x28; d1; d2; d3; d4; 0x29] ++ w ->
      isdigit U d1 = true -> isdigit U d2 = true ->
      isdigit U d3 = true -> isdigit U d4 = true ->
      forallb isspace w = true ->
      base_clean U title = tidy_whitespace (strip_chars [0x20; 0x22; 0x27] (strip p)))
  /\ (ends_with_year U (base_clean U title) = false ->
      quote_at_end (base_clean U title) = false ->
      base_clean U (base_clean U title) = base_clean U title).
Proof.
  split.
  - intros p w d1 d2 d3 d4 E D1 D2 D3 D4 W. subst title.
    rewrite base_clean_steps, cut_year_block by assumption.
    unfold strip. rewrite strip_by_rstrip. reflexivity.
  - intros Y Q.
    assert (exists x, base_clean U title = tidy_whitespace x) as [x E]
      by (eexists; apply base_clean_steps).
    destruct (tidy_whitespace_shape x) as (N & L & R).
    rewrite <- E in N, L, R. clear E x.
    set (b := base_clean U title) in *.
    apply orb_false_elim in Q as [Q1 Q2]. apply negb_false_iff in Q1, Q2.
    rewrite base_clean_steps.
    rewrite (cut_year_fixed [] b R Y).
    unfold strip. rewrite (strip_by_fixed isspace b L R).
    unfold strip_chars. fold quote_or_space.
    rewrite (strip_by_fixed quote_or_space b).
    + apply tidy_whitespace_fixed; assumption.
    + apply lstrip_clear, clear_quote_or_space; [apply clear_head_fixed, L | exact Q1].
    + apply rstrip_clear, clear_quote_or_space; [apply clear_last_fixed, R | exact Q2].
Qed.

End BaseCleanFacts.

(** C6 fails as stated: two blocks at the end are removed one at a time. *)
Lemma base_clean_twice :
  base_clean ucd_rows (str "Foo (1995) (1996)") = str "Foo (1995)"
  /\ base_clean ucd_rows (base_clean ucd_rows (str "Foo (1995) (1996)")) = str "Foo".
Proof. split; reflexivity. Qed.

Lemma base_clean_trailing_year_witness :
  str "  'Toy Story'  (1995) " = str "  'Toy Story'  " ++ [0x28; 0x31; 0x39; 0x39; 0x35; 0x29] ++ str " "
  /\ base_clean ucd_rows (str "  'Toy Story'  (1995) ") = str "Toy Story"
  /\ ends_with_year ucd_rows (base_clean ucd_rows (str "  'Toy Story'  (1995) ")) = false
  /\ quote_at_end (base_clean ucd_rows (str "  'Toy Story'  (1995) ")) = false
  /\ base_clean ucd_rows (base_clean ucd_rows (str "  'Toy Story'  (1995) "))
     = base_clean ucd_rows (str "  'Toy Story'  (1995) ").
Proof.
  pose proof (base_clean_trailing_year ucd_rows (str "  'Toy Story'  (1995) ")) as [A B].
  split; [reflexivity |]. split.
  - rewrite (A (str "  'Toy Story'  ") (str " ") 0x31 0x39 0x39 0x35) by reflexivity.
    reflexivity.
  - split; [reflexivity |]. split; [reflexivity |]. apply B; reflexivity.
Defined.

(** * The release year *)

Section YearFacts.

Variable U : unicodedata.




End YearFacts.

(** * Diacritics *)

Section DiacriticFacts.

Variable U : unicodedata.

Lemma place_mark_starters (c : char) (l : pystr) :
  filter (starter U) (place_mark U c l) = filter (starter U) (c :: l).
Proof.
  induction l as [| d l IH]; [reflexivity |].
  cbn [place_mark].
  destruct (N.ltb_spec 0 (combining U d)) as [Pd |]; [| reflexivity].
  destruct (N.ltb_spec (combining U d) (combining U c)) as [Pc |]; [| reflexivity].
  cbn [andb filter]. rewrite IH. cbn [filter]. unfold starter.
  destruct (N.eqb_spec (combining U d) 0); [lia |].
  destruct (N.eqb_spec (combining U c) 0); [lia |]. reflexivity.
Qed.

Lemma canonical_order_starters (l : pystr) :
  filter (starter U) (canonical_order U l) = filter (starter U) l.
Proof.
  induction l as [| c l IH]; [reflexivity |].
  cbn [canonical_order fold_right]. fold (canonical_order U l).
  rewrite place_mark_starters. cbn [filter]. rewrite IH. reflexivity.
Qed.

(** The marks go whatever order normalisation leaves them in. *)
Lemma strip_marks_unordered (s : pystr) :
  strip_marks U s = filter (starter U) (flat_map (decomposition U) s).
Proof. unfold strip_marks, normalize_nfkd. apply canonical_order_starters. Qed.

Lemma canonical_order_fixed (l : pystr) :
  Forall (fun c => combining U c = 0) l -> canonical_order U l = l.
Proof.
  induction 1 as [| c l C F IH]; [reflexivity |].
  cbn [canonical_order fold_right]. fold (canonical_order U l). rewrite IH.
  destruct F as [| d l D F]; [reflexivity |].
  cbn [place_mark]. rewrite D. reflexivity.
Qed.

Lemma filter_fixed (l : pystr) :
  Forall (fun c => combining U c = 0) l -> filter (starter U) l = l.
Proof.
  induction 1 as [| c l C F IH]; [reflexivity |].
  cbn [filter]. unfold starter at 1. rewrite C, IH. reflexivity.
Qed.

Lemma flat_map_fixed (l : pystr) :
  Forall (fun c => decomposition U c = [c]) l -> flat_map (decomposition U) l = l.
Proof.
  induction 1 as [| c l C F IH]; [reflexivity |].
  cbn [flat_map]. rewrite C, IH. reflexivity.
Qed.

Lemma strip_marks_fixed (s : pystr) :
  Forall (fun c => decomposition U c = [c]) s ->
  Forall (fun c => combining U c = 0) s ->
  strip_marks U s = s.
Proof.
  intros D C. rewrite strip_marks_unordered, flat_map_fixed by exact D.
  apply filter_fixed, C.
Qed.

Lemma strip_marks_idempotent (s : pystr) :
  (forall c d, In d (decomposition U c) -> decomposition U d = [d]) ->
  strip_marks U (strip_marks U s) = strip_marks U s.
Proof.
  intros Full. apply strip_marks_fixed; rewrite strip_marks_unordered;
    apply Forall_forall; intros d I; apply filter_In in I as [I S].
  - apply in_flat_map in I as (c & _ & I). exact (Full c d I).
  - apply N.eqb_eq, S.
Qed.

(** C9, as amended. For Unicode tables that decompose e-acute into e and
    the combining acute accent (a mark), leave the ASCII characters alone
    and give full decompositions: [remove_diacritics] maps "Amélie" to
    "Amelie"; it is idempotent; it returns the decomposed text when that
    holds no mark, which is the text itself when no character of it has a
    decomposition; and it returns what is not a string unchanged. *)
Theorem remove_diacritics_facts :
  decomposition U 0xE9 = [0x65; 0x301] ->
  combining U 0x301 = 230 ->
  (forall c, c < 0x80 -> decomposition U c = [c] /\ combining U c = 0) ->
  (forall c d, In d (decomposition U c) -> decomposition U d = [d]) ->
  remove_diacritics U (VStr amelie) = VStr (str "Amelie")
  /\ (forall v, remove_diacritics U (remove_diacritics U v) = remove_diacritics U v)
  /\ (forall s, forallb (starter U) (normalize_nfkd U s) = true ->
                remove_diacritics U (VStr s) = VStr (normalize_nfkd U s))
  /\ (forall s, Forall (fun c => decomposition U c = [c] /\ combining U c = 0) s ->
                remove_diacritics U (VStr s) = VStr s)
  /\ (forall v, (forall s, v <> VStr s) -> remove_diacritics U v = v).
Proof.
  intros E M A Full. repeat split.
  - cbn [remove_diacritics]. f_equal. rewrite strip_marks_unordered.
    unfold amelie. cbn [str list_ascii_of_string map app flat_map].
    rewrite E.
    repeat match goal with
    | |- context [decomposition U (N_of_ascii ?a)] =>
        rewrite (proj1 (A (N_of_ascii a) eq_refl))
    end.
    cbn [app filter]. unfold starter. rewrite M.
    repeat match goal with
    | |- context [combining U (N_of_ascii ?a)] =>
        rewrite (proj2 (A (N_of_ascii a) eq_refl))
    end.
    rewrite (proj2 (A 0x65 eq_refl)). reflexivity.
  - intros v. destruct v; try reflexivity.
    cbn [remove_diacritics]. f_equal. apply strip_marks_idempotent, Full.
  - intros s S. cbn [remove_diacritics]. f_equal. unfold strip_marks.
    apply filter_fixed. apply Forall_forall. intros c I.
    rewrite forallb_forall in S. apply N.eqb_eq, S, I.
  - intros s F. cbn [remove_diacritics]. f_equal.
    apply strip_marks_fixed; eapply Forall_impl; try exact F; cbn; tauto.
  - intros v N. destruct v; try reflexivity. exfalso. exact (N s eq_refl).
Qed.

End DiacriticFacts.

Lemma ucd_rows_ascii (c : char) :
  c < 0x80 -> decomposition ucd_rows c = [c] /\ combining ucd_rows c = 0.
Proof.
  intros L. cbn.
  destruct (N.eqb_spec c 0xA8); [lia |]. destruct (N.eqb_spec c 0xB3); [lia |].
  destruct (N.eqb_spec c 0xE9); [lia |]. destruct (N.eqb_spec c 0x301); [lia |].
  destruct (N.eqb_spec c 0x308); [lia |]. auto.
Qed.

Lemma ucd_rows_full (c d : char) :
  In d (decomposition ucd_rows c) -> decomposition ucd_rows d = [d].
Proof.
  cbn.
  destruct (N.eqb_spec c 0xA8);
    [| destruct (N.eqb_spec c 0xB3); [| destruct (N.eqb_spec c 0xE9)]];
    cbn; intros I;
    repeat (destruct I as [I | I]; [subst d; try reflexivity |]); try contradiction.
  destruct (N.eqb_spec c 0xA8); [contradiction |].
  destruct (N.eqb_spec c 0xB3); [contradiction |].
  destruct (N.eqb_spec c 0xE9); [contradiction |]. reflexivity.
Qed.

(** C9 fails as stated: the superscript three of "Alien³" decomposes into
    the digit 3, the decomposed text holds no mark, and the text is not
    returned unchanged. *)
Lemma decomposed_without_mark :
  forallb (starter ucd_rows) (normalize_nfkd ucd_rows alien3) = true
  /\ remove_diacritics ucd_rows (VStr alien3) = VStr (str "Alien3")
  /\ pystr_eqb alien3 (str "Alien3") = false.
Proof. repeat split. Qed.

Lemma remove_diacritics_facts_witness :
  decomposition ucd_rows 0xE9 = [0x65; 0x301]
  /\ combining ucd_rows 0x301 = 230
  /\ (forall c, c < 0x80 -> decomposition ucd_rows c = [c] /\ combining ucd_rows c = 0)
  /\ (forall c d, In d (decomposition ucd_rows c) -> decomposition ucd_rows d = [d])
  /\ remove_diacritics ucd_rows (VStr amelie) = VStr (str "Amelie")
  /\ remove_diacritics ucd_rows (remove_diacritics ucd_rows (VStr amelie))
     = remove_diacritics ucd_rows (VStr amelie)
  /\ remove_diacritics ucd_rows (VStr (str "Amelie")) = VStr (str "Amelie")
  /\ remove_diacritics ucd_rows VNone = VNone.
Proof.
  pose proof (remove_diacritics_facts ucd_rows eq_refl eq_refl ucd_rows_ascii ucd_rows_full)
    as (A & I & _ & F & O).
  split; [reflexivity |]. split; [reflexivity |].
  split; [exact ucd_rows_ascii |]. split; [exact ucd_rows_full |].
  split; [exact A |]. split; [apply I |].
  split; [apply F; repeat constructor | apply O; discriminate].
Defined.

(** * The resolver *)

Section ResolverFacts.

Variable float_of_str : pystr -> option float.
Variable int_of_str : pystr -> option Z.
Variable World : Type.
Variable http_get : request -> World -> reply * World.

Lemma shape_seq (w1 w2 : World) (tr1 tr2 : list call) (out : flow) :
  shape float_of_str (Next, w1, tr1) -> shape float_of_str (out, w2, tr2) ->
  shape float_of_str (out, w2, tr1 ++ tr2).
Proof.
  unfold shape, outcome, calls; cbn.
  intros [[_ Q1] | (tr0 & c & _ & _ & _ & N)]; [| congruence].
  intros [[E Q2] | (tr0 & c & E & Q2 & O & N)].
  - left. split; [exact E | apply Forall_app; auto].
  - right. exists (tr1 ++ tr0), c. rewrite E, app_assoc.
    repeat split; auto. apply Forall_app; auto.
Qed.

Lemma attempts_shape (n : nat) (rq : request) (w : World) :
  shape float_of_str (attempts float_of_str http_get n rq w).
Proof.
  revert w. induction n as [| n IH]; intros w; cbn.
  - left. split; [reflexivity | constructor].
  - destruct (http_get rq w) as [rep w1]. destruct rep as [| e | data].
    + specialize (IH w1).
      destruct (attempts float_of_str http_get n rq w1) as [[out w2] tr].
      change ((rq, RequestException) :: tr) with ([(rq, RequestException)] ++ tr).
      apply shape_seq with (w1 := w1); [| exact IH].
      left. split; [reflexivity | repeat constructor].
    + right. exists [], (rq, Raised e). repeat split; auto; cbn; congruence.
    + unfold shape, outcome, calls; cbn.
      destruct (on_body float_of_str data) eqn:E.
      * left. split; [reflexivity |]. repeat constructor. exact E.
      * right. exists [], (rq, Json data). repeat split; auto; cbn; congruence.
      * right. exists [], (rq, Json data). repeat split; auto; cbn; congruence.
Qed.

Lemma for_params_shape (ps : list request) (w : World) :
  shape float_of_str (for_params float_of_str http_get ps w).
Proof.
  revert w. induction ps as [| rq ps IH]; intros w; cbn [for_params].
  - left. split; [reflexivity | constructor].
  - pose proof (attempts_shape API_RETRIES rq w) as A.
    destruct (attempts float_of_str http_get API_RETRIES rq w) as [[out w1] tr].
    destruct out; auto.
    specialize (IH w1). destruct (for_params float_of_str http_get ps w1) as [[out' w2] tr'].
    apply shape_seq with (w1 := w1); auto.
Qed.

(** The year decides once and for all whether the loop raises. *)
Lemma params_list_pairs (c : pystr) (year : value) :
  params_list int_of_str c year
  = match year_param int_of_str year with
    | inr yo => inr (pairs c yo)
    | inl e => inl e
    end.
Proof.
  unfold params_list, year_param. destruct (truthy year); [| reflexivity].
  destruct (py_int int_of_str year); reflexivity.
Qed.

Lemma for_candidates_raises (c : pystr) (cs : list pystr) (year : value) (w : World)
    (e : exn) :
  year_param int_of_str year = inl e ->
  for_candidates float_of_str int_of_str http_get (c :: cs) year w = (Raise e, w, []).
Proof. intros Y. cbn [for_candidates]. rewrite params_list_pairs, Y. reflexivity. Qed.

Lemma for_candidates_cons (c : pystr) (cs : list pystr) (year : value) (w : World)
    (yo : option Z) :
  year_param int_of_str year = inr yo ->
  for_candidates float_of_str int_of_str http_get (c :: cs) year w
  = let '(out, w1, tr) := for_params float_of_str http_get (pairs c yo) w in
    match out with
    | Next =>
        let '(out', w2, tr') :=
          for_candidates float_of_str int_of_str http_get cs year w1 in
        (out', w2, tr ++ tr')
    | _ => (out, w1, tr)
    end.
Proof. intros Y. cbn [for_candidates]. rewrite params_list_pairs, Y. reflexivity. Qed.

Lemma for_candidates_shape (cs : list pystr) (year : value) (yo : option Z) (w : World) :
  year_param int_of_str year = inr yo ->
  shape float_of_str (for_candidates float_of_str int_of_str http_get cs year w).
Proof.
  intros Y. revert w. induction cs as [| c cs IH]; intros w.
  - left. split; [reflexivity | constructor].
  - rewrite (for_candidates_cons c cs year w yo Y).
    pose proof (for_params_shape (pairs c yo) w) as A.
    destruct (for_params float_of_str http_get (pairs c yo) w) as [[out w1] tr].
    destruct out; auto.
    specialize (IH w1).
    destruct (for_candidates float_of_str int_of_str http_get cs year w1) as [[out' w2] tr'].
    apply shape_seq with (w1 := w1); auto.
Qed.

(** A year that [int] refuses: the first round raises before any call. *)
Lemma for_candidates_bad_year (cs : list pystr) (year : value) (e : exn) (w : World) :
  year_param int_of_str year = inl e ->
  calls (for_candidates float_of_str int_of_str http_get cs year w) = []
  /\ outcome (for_candidates float_of_str int_of_str http_get cs year w)
     = match cs with [] => Next | _ :: _ => Raise e end.
Proof.
  intros Y. destruct cs as [| c cs]; [split; reflexivity |].
  rewrite (for_candidates_raises c cs year w e Y). split; reflexivity.
Qed.

Lemma fetch_calls (cs : list pystr) (year : value) (w : World) :
  calls (fetch_omdb_data float_of_str int_of_str http_get cs year w)
  = calls (for_candidates float_of_str int_of_str http_get cs year w).
Proof.
  unfold fetch_omdb_data.
  destruct (for_candidates float_of_str int_of_str http_get cs year w) as [[out w'] tr].
  destruct out; reflexivity.
Qed.

Lemma fetch_outcome (cs : list pystr) (year : value) (w : World) :
  outcome (fetch_omdb_data float_of_str int_of_str http_get cs year w)
  = match outcome (for_candidates float_of_str int_of_str http_get cs year w) with
    | Return r => inr r
    | Raise e => inl e
    | Next => inr default
    end.
Proof.
  unfold fetch_omdb_data.
  destruct (for_candidates float_of_str int_of_str http_get cs year w) as [[out w'] tr].
  destruct out; reflexivity.
Qed.

Lemma hit_flow (rq : request) (d : list (pystr * value)) :
  authoritative d = true ->
  reply_flow float_of_str (rq, Json (VDict d))
  = match record_of float_of_str d with inr r => Return r | inl e => Raise e end.
Proof. intros A. unfold reply_flow; cbn. rewrite A. reflexivity. Qed.

Lemma hit_not_quiet (rq : request) (d : list (pystr * value)) :
  authoritative d = true -> reply_flow float_of_str (rq, Json (VDict d)) <> Next.
Proof.
  intros A. rewrite (hit_flow rq d A).
  destruct (record_of float_of_str d); discriminate.
Qed.

Lemma quiet_not_hit (c : call) : quiet float_of_str c -> is_hit c = false.
Proof.
  destruct c as [rq rep]. unfold quiet, is_hit; cbn [snd]. intros F.
  destruct rep as [| e | data]; try reflexivity.
  destruct data; try reflexivity.
  destruct (authoritative d) eqn:A; [| reflexivity].
  exfalso. exact (hit_not_quiet rq d A F).
Qed.

(** A call that is not quiet can only be the last one of a run. *)
Lemma shape_last (x : flow * World * list call) (tr1 tr2 : list call) (c : call) :
  shape float_of_str x -> calls x = tr1 ++ c :: tr2 -> reply_flow float_of_str c <> Next ->
  tr2 = [] /\ outcome x = reply_flow float_of_str c /\ Forall (quiet float_of_str) tr1.
Proof.
  intros [[_ Q] | (tr0 & c' & E & Q & O & _)] T N.
  - rewrite T in Q. apply Forall_app in Q as [_ Q].
    apply Forall_inv in Q. contradiction.
  - rewrite T in E. destruct tr2 as [| c2 tr2].
    + apply app_inj_tail in E as [E1 E2]. subst. auto.
    + exfalso.
      assert (In c tr0) as I.
      { destruct (exists_last (l := c2 :: tr2)) as (m & z & L); [discriminate |].
        rewrite L in E. change (c :: m ++ [z]) with ((c :: m) ++ [z]) in E.
        rewrite app_assoc in E. apply app_inj_tail in E as [E _].
        rewrite <- E. apply in_or_app. right. left. reflexivity. }
      rewrite Forall_forall in Q. apply N, Q, I.
Qed.

(** ** No retry after a definite answer, two attempts at most *)

Lemma attempts_calls (n : nat) (rq : request) (w : World) :
  (length (calls (attempts float_of_str http_get n rq w)) <= n)%nat
  /\ Forall (fun c => fst c = rq) (calls (attempts float_of_str http_get n rq w)).
Proof.
  revert w. induction n as [| n IH]; intros w; cbn.
  - split; [lia | constructor].
  - destruct (http_get rq w) as [rep w1]. destruct rep as [| e | data].
    + specialize (IH w1).
      destruct (attempts float_of_str http_get n rq w1) as [[out w2] tr].
      unfold calls in *; cbn in *. destruct IH as [L F].
      split; [lia | constructor; auto].
    + unfold calls; cbn. split; [lia | repeat constructor].
    + unfold calls; cbn. split; [lia | repeat constructor].
Qed.

Lemma attempts_failures (n : nat) (rq : request) (w : World) :
  Forall (fun c => is_failure c = true) (calls (attempts float_of_str http_get n rq w)) ->
  outcome (attempts float_of_str http_get n rq w) = Next
  /\ calls (attempts float_of_str http_get n rq w) = repeat (rq, RequestException) n.
Proof.
  revert w. induction n as [| n IH]; intros w; cbn.
  - auto.
  - destruct (http_get rq w) as [rep w1]. destruct rep as [| e | data].
    + specialize (IH w1).
      destruct (attempts float_of_str http_get n rq w1) as [[out w2] tr].
      unfold calls, outcome in *; cbn in *. intros F.
      apply Forall_inv_tail in F. destruct (IH F) as [O T]. subst. auto.
    + unfold calls; cbn. intros F. apply Forall_inv in F. discriminate.
    + unfold calls; cbn. intros F. apply Forall_inv in F. discriminate.
Qed.

Lemma pairs_length (c : pystr) (yo : option Z) : (length (pairs c yo) <= 2)%nat.
Proof. destruct yo; cbn; lia. Qed.

Lemma for_params_calls (ps : list request) (w : World) :
  (length (calls (for_params float_of_str http_get ps w)) <= length ps * API_RETRIES)%nat.
Proof.
  revert w. induction ps as [| rq ps IH]; intros w; cbn [for_params].
  - cbn. lia.
  - pose proof (attempts_calls API_RETRIES rq w) as [A _].
    destruct (attempts float_of_str http_get API_RETRIES rq w) as [[out w1] tr].
    unfold calls in *; cbn [snd] in *.
    destruct out; cbn [snd length]; try lia.
    specialize (IH w1).
    destruct (for_params float_of_str http_get ps w1) as [[out' w2] tr'].
    cbn [snd] in *. rewrite length_app. lia.
Qed.

Lemma for_candidates_calls (cs : list pystr) (year : value) (w : World) :
  (length (calls (for_candidates float_of_str int_of_str http_get cs year w))
   <= length cs * 2 * API_RETRIES)%nat.
Proof.
  destruct (year_param int_of_str year) as [e | yo] eqn:Y.
  { rewrite (proj1 (for_candidates_bad_year cs year e w Y)). cbn. lia. }
  revert w. induction cs as [| c cs IH]; intros w.
  - cbn. lia.
  - rewrite (for_candidates_cons c cs year w yo Y).
    pose proof (for_params_calls (pairs c yo) w) as A.
    pose proof (pairs_length c yo) as P.
    destruct (for_params float_of_str http_get (pairs c yo) w) as [[out w1] tr].
    unfold calls in *; cbn [snd] in *.
    assert (length tr <= 2 * API_RETRIES)%nat as B by nia.
    destruct out; cbn [snd length]; try lia.
    specialize (IH w1).
    destruct (for_candidates float_of_str int_of_str http_get cs year w1) as [[out' w2] tr'].
    cbn [snd] in *. rewrite length_app. lia.
Qed.

Lemma lookups_app (rq : request) (tr1 tr2 : list call) :
  lookups rq (tr1 ++ tr2) = (lookups rq tr1 + lookups rq tr2)%nat.
Proof. unfold lookups. rewrite map_app. apply count_occ_app. Qed.

Lemma lookups_same (rq' rq : request) (tr : list call) :
  Forall (fun c => fst c = rq') tr ->
  lookups rq tr = (length tr * count_occ request_eq_dec [rq'] rq)%nat.
Proof.
  induction 1 as [| c tr C F IH]; [reflexivity |].
  unfold lookups in *. cbn [map count_occ length] in *. rewrite C.
  destruct (request_eq_dec rq' rq); lia.
Qed.

Lemma attempts_lookups (n : nat) (rq' rq : request) (w : World) :
  (lookups rq (calls (attempts float_of_str http_get n rq' w))
   <= n * count_occ request_eq_dec [rq'] rq)%nat.
Proof.
  destruct (attempts_calls n rq' w) as [L F].
  rewrite (lookups_same rq' rq _ F). nia.
Qed.

Lemma for_params_lookups (ps : list request) (rq : request) (w : World) :
  (lookups rq (calls (for_params float_of_str http_get ps w))
   <= API_RETRIES * count_occ request_eq_dec ps rq)%nat.
Proof.
  revert w. induction ps as [| rq' ps IH]; intros w; cbn [for_params].
  - cbn. lia.
  - pose proof (attempts_lookups API_RETRIES rq' rq w) as A.
    destruct (attempts float_of_str http_get API_RETRIES rq' w) as [[out w1] tr].
    unfold calls in *; cbn [snd] in *.
    change (rq' :: ps) with ([rq'] ++ ps). rewrite count_occ_app.
    destruct out; cbn [snd]; try nia.
    specialize (IH w1).
    destruct (for_params float_of_str http_get ps w1) as [[out' w2] tr'].
    cbn [snd] in *. rewrite lookups_app. nia.
Qed.

Lemma for_candidates_lookups (cs : list pystr) (year : value) (rq : request) (w : World) :
  (lookups rq (calls (for_candidates float_of_str int_of_str http_get cs year w))
   <= API_RETRIES
      * count_occ request_eq_dec
          (match year_param int_of_str year with
           | inr yo => plan cs yo
           | inl _ => []
           end) rq)%nat.
Proof.
  destruct (year_param int_of_str year) as [e | yo] eqn:Y.
  { rewrite (proj1 (for_candidates_bad_year cs year e w Y)). cbn. lia. }
  revert w. induction cs as [| c cs IH]; intros w.
  - cbn. lia.
  - rewrite (for_candidates_cons c cs year w yo Y). unfold plan in *. cbn [flat_map].
    pose proof (for_params_lookups (pairs c yo) rq w) as A.
    destruct (for_params float_of_str http_get (pairs c yo) w) as [[out w1] tr].
    unfold calls in *; cbn [snd] in *. rewrite count_occ_app.
    destruct out; cbn [snd]; try nia.
    specialize (IH w1).
    destruct (for_candidates float_of_str int_of_str http_get cs year w1) as [[out' w2] tr'].
    cbn [snd] in *. rewrite lookups_app. nia.
Qed.

(** C3. One visit of a (candidate, year-variant) pair costs at most two
    lookups, all of them for that pair, and exactly two followed by the
    next pair when each of them fails; over a whole run a pair is looked up
    at most twice for each time the candidate list gives it (never, when
    [int] refuses the year); and a list of N candidates costs at most
    N * 2 * 2 lookups, whatever the year and whatever the service
    answers. *)
Theorem retry_budget (cands : list pystr) (year : value) (w : World) :
  (forall (rq : request) (w0 : World),
      (length (calls (attempts float_of_str http_get API_RETRIES rq w0)) <= 2)%nat
      /\ Forall (fun c => fst c = rq)
                (calls (attempts float_of_str http_get API_RETRIES rq w0))
      /\ (Forall (fun c => is_failure c = true)
                 (calls (attempts float_of_str http_get API_RETRIES rq w0)) ->
          outcome (attempts float_of_str http_get API_RETRIES rq w0) = Next
          /\ calls (attempts float_of_str http_get API_RETRIES rq w0)
             = [(rq, RequestException); (rq, RequestException)]))
  /\ (forall rq : request,
         (lookups rq (calls (fetch_omdb_data float_of_str int_of_str http_get cands year w))
          <= 2 * count_occ request_eq_dec
                   (match year_param int_of_str year with
                    | inr yo => flat_map (fun c => pairs c yo) cands
                    | inl _ => []
                    end) rq)%nat)
  /\ (length (calls (fetch_omdb_data float_of_str int_of_str http_get cands year w))
      <= length cands * 2 * 2)%nat.
Proof.
  split; [| split].
  - intros rq w0. pose proof (attempts_calls API_RETRIES rq w0) as [L F].
    repeat split; auto; apply attempts_failures; assumption.
  - intros rq. rewrite fetch_calls. apply for_candidates_lookups.
  - rewrite fetch_calls. apply for_candidates_calls.
Qed.

(** C4. With no candidate the resolver returns the default record (no
    identifier, plot "Not Available", director "Unknown", no box office, no
    runtime, no rating) and calls nothing, whatever the year. *)
Theorem fetch_empty_default (year : value) (w : World) :
  fetch_omdb_data float_of_str int_of_str http_get [] year w = (inr default, w, [])
  /\ imdb_id default = VNone
  /\ plot default = VStr (str "Not Available")
  /\ director default = VStr (str "Unknown")
  /\ box_office default = VNone
  /\ runtime default = VNone
  /\ imdb_rating default = None.
Proof. repeat split. Qed.

(** C2, as amended. When a lookup is answered by an authoritative reply, that
    lookup is the last call of the run, no earlier call was authoritative,
    and the run ends with what mapping that reply gives: the record, or the
    error of the rating conversion. *)
Theorem fetch_stops_at_first_hit (cands : list pystr) (year : value) (w : World)
    (tr1 tr2 : list call) (rq : request) (d : list (pystr * value)) :
  calls (fetch_omdb_data float_of_str int_of_str http_get cands year w)
  = tr1 ++ (rq, Json (VDict d)) :: tr2 ->
  authoritative d = true ->
  tr2 = []
  /\ Forall (fun c => is_hit c = false) tr1
  /\ outcome (fetch_omdb_data float_of_str int_of_str http_get cands year w)
     = record_of float_of_str d.
Proof.
  intros T A. rewrite fetch_calls in T. rewrite fetch_outcome.
  destruct (year_param int_of_str year) as [e | yo] eqn:Y.
  { rewrite (proj1 (for_candidates_bad_year cands year e w Y)) in T.
    destruct tr1; discriminate. }
  destruct (shape_last _ _ _ _ (for_candidates_shape cands year yo w Y) T
              (hit_not_quiet rq d A))
    as (E & O & Q).
  split; [exact E |]. split.
  - eapply Forall_impl; [| exact Q]. intros c F. exact (quiet_not_hit c F).
  - rewrite O, (hit_flow rq d A). destruct (record_of float_of_str d); reflexivity.
Qed.

Lemma ok_flow (c : call) :
  reply_ok float_of_str c = true ->
  reply_flow float_of_str c = Next
  \/ exists rq d r, c = (rq, Json (VDict d)) /\ authoritative d = true
                    /\ record_of float_of_str d = inr r
                    /\ reply_flow float_of_str c = Return r.
Proof.
  destruct c as [rq rep]. unfold reply_ok, reply_flow; cbn [snd].
  destruct rep as [| e | data]; [auto | discriminate |].
  destruct data; try discriminate. cbn [on_body].
  destruct (authoritative d) eqn:A; [| auto]. cbn [implb]. intros R. right.
  assert (exists r, record_of float_of_str d = inr r) as [r E].
  { unfold record_of, rating_of. unfold rating_ok in R.
    remember (dict_get d (str "imdbRating")) as x.
    destruct (is_none x || is_str (str "N/A") x).
    - eexists; reflexivity.
    - cbn [orb] in R. destruct (py_float float_of_str x);
        [discriminate | eexists; reflexivity]. }
  exists rq, d, r. rewrite E. auto.
Qed.

(** C1, as amended. When the year is false or one that [int] takes, every
    request of the run ends in a RequestException or in a decoded JSON
    object, and the rating of every authoritative object is absent, null,
    "N/A" or something [float] takes, the resolver returns a record and
    raises nothing: the default record after a run without authoritative
    reply, and otherwise the record mapped from the authoritative reply
    that ended the run. *)
Theorem fetch_returns_record (cands : list pystr) (year : value) (w : World) :
  year_ok int_of_str year = true ->
  Forall (fun c => reply_ok float_of_str c = true)
         (calls (fetch_omdb_data float_of_str int_of_str http_get cands year w)) ->
  exists r : EnrichmentRecord,
    outcome (fetch_omdb_data float_of_str int_of_str http_get cands year w) = inr r
    /\ ((r = default
         /\ Forall (fun c => is_hit c = false)
                   (calls (fetch_omdb_data float_of_str int_of_str http_get cands year w)))
        \/ (exists tr0 rq d,
               calls (fetch_omdb_data float_of_str int_of_str http_get cands year w)
               = tr0 ++ [(rq, Json (VDict d))]
               /\ authoritative d = true
               /\ record_of float_of_str d = inr r)).
Proof.
  unfold year_ok. destruct (year_param int_of_str year) as [e | yo] eqn:Y; [discriminate |].
  intros _. rewrite fetch_calls, fetch_outcome. intros K.
  destruct (for_candidates_shape cands year yo w Y) as [[O Q] | (tr0 & c & T & Q & O & N)].
  - rewrite O. exists default. split; [reflexivity |]. left. split; [reflexivity |].
    eapply Forall_impl; [| exact Q]. intros c F. exact (quiet_not_hit c F).
  - rewrite T in K. apply Forall_app in K as [_ K]. apply Forall_inv in K.
    destruct (ok_flow c K) as [F | (rq & d & r & C & A & R & F)]; [congruence |].
    exists r. rewrite O, F. split; [reflexivity |]. right.
    exists tr0, rq, d. subst c. auto.
Qed.

(** ** A no-match answer moves on at once *)

Lemma attempts_miss (n : nat) (rq : request) (w : World) :
  Forall (fun c => is_miss c = true) (calls (attempts float_of_str http_get (S n) rq w)) ->
  attempts float_of_str http_get (S n) rq w
  = (Next, snd (http_get rq w), [(rq, fst (http_get rq w))]).
Proof.
  cbn. destruct (http_get rq w) as [rep w1]. destruct rep as [| e | data].
  - destruct (attempts float_of_str http_get n rq w1) as [[out w2] tr].
    unfold calls; cbn. intros F. apply Forall_inv in F. discriminate.
  - unfold calls; cbn. intros F. apply Forall_inv in F. discriminate.
  - unfold calls; cbn. intros F. apply Forall_inv in F. unfold is_miss in F; cbn in F.
    destruct data; try discriminate. cbn.
    destruct (authoritative d); [discriminate | reflexivity].
Qed.

Lemma attempts_first_miss (n : nat) (rq : request) (w : World) :
  is_miss (rq, fst (http_get rq w)) = true ->
  attempts float_of_str http_get (S n) rq w
  = (Next, snd (http_get rq w), [(rq, fst (http_get rq w))]).
Proof.
  cbn. destruct (http_get rq w) as [rep w1]. unfold is_miss; cbn.
  destruct rep as [| e | data]; [discriminate | discriminate |].
  destruct data; try discriminate. cbn.
  destruct (authoritative d); [discriminate | reflexivity].
Qed.

Lemma for_params_miss (ps : list request) (w : World) :
  Forall (fun c => is_miss c = true) (calls (for_params float_of_str http_get ps w)) ->
  outcome (for_params float_of_str http_get ps w) = Next
  /\ map fst (calls (for_params float_of_str http_get ps w)) = ps.
Proof.
  revert w. induction ps as [| rq ps IH]; intros w; cbn [for_params].
  - auto.
  - pose proof (attempts_miss 1 rq w) as A. change 2%nat with API_RETRIES in A.
    destruct (attempts float_of_str http_get API_RETRIES rq w) as [[out w1] tr].
    unfold calls, outcome in A |- *; cbn [fst snd] in A |- *.
    assert (Forall (fun c => is_miss c = true)
              (snd (let '(out', w2, tr') := for_params float_of_str http_get ps w1 in
                    (out', w2, tr ++ tr')))
            -> Forall (fun c => is_miss c = true) tr) as S.
    { destruct (for_params float_of_str http_get ps w1) as [[out' w2] tr'].
      cbn. intros F. apply Forall_app in F. tauto. }
    destruct out; cbn [fst snd]; intros F.
    + specialize (A (S F)). inversion A; subst. clear A S.
      specialize (IH (snd (http_get rq w))).
      destruct (for_params float_of_str http_get ps (snd (http_get rq w)))
        as [[out' w2] tr'].
      unfold calls, outcome in IH; cbn [fst snd] in *.
      apply Forall_inv_tail in F. destruct (IH F) as [O M]. subst. auto.
    + specialize (A F). discriminate.
    + specialize (A F). discriminate.
Qed.

Lemma for_candidates_miss (cs : list pystr) (year : value) (yo : option Z) (w : World) :
  year_param int_of_str year = inr yo ->
  Forall (fun c => is_miss c = true)
         (calls (for_candidates float_of_str int_of_str http_get cs year w)) ->
  outcome (for_candidates float_of_str int_of_str http_get cs year w) = Next
  /\ map fst (calls (for_candidates float_of_str int_of_str http_get cs year w))
     = plan cs yo.
Proof.
  intros Y. revert w. induction cs as [| c cs IH]; intros w.
  - auto.
  - rewrite (for_candidates_cons c cs year w yo Y). unfold plan in *. cbn [flat_map].
    pose proof (for_params_miss (pairs c yo) w) as A.
    destruct (for_params float_of_str http_get (pairs c yo) w) as [[out w1] tr].
    unfold calls, outcome in A |- *; cbn [fst snd] in A |- *.
    assert (Forall (fun c => is_miss c = true)
              (snd (let '(out', w2, tr') :=
                      for_candidates float_of_str int_of_str http_get cs year w1 in
                    (out', w2, tr ++ tr')))
            -> Forall (fun c => is_miss c = true) tr) as S.
    { destruct (for_candidates float_of_str int_of_str http_get cs year w1)
        as [[out' w2] tr'].
      cbn. intros F. apply Forall_app in F. tauto. }
    destruct out; cbn [fst snd]; intros F.
    + destruct (A (S F)) as [_ M]. clear A S.
      specialize (IH w1).
      destruct (for_candidates float_of_str int_of_str http_get cs year w1)
        as [[out' w2] tr'].
      unfold calls, outcome in IH; cbn [fst snd] in *.
      apply Forall_app in F as [_ F]. destruct (IH F) as [O M'].
      split; [exact O |]. rewrite map_app. f_equal; assumption.
    + destruct (A F). discriminate.
    + destruct (A F). discriminate.
Qed.

(** ** The state machine of the loops *)

Lemma same_request (rq : request) : request_eqb rq rq = true.
Proof. unfold request_eqb. destruct (request_eq_dec rq rq); [reflexivity | contradiction]. Qed.

Lemma request_eqb_eq (a b : request) : request_eqb a b = true <-> a = b.
Proof. unfold request_eqb. destruct (request_eq_dec a b); split; auto; discriminate. Qed.

Lemma body_miss (rq : request) (data : value) :
  on_body float_of_str data = Next <-> is_miss (rq, Json data) = true.
Proof.
  unfold is_miss; cbn [snd]. destruct data; cbn [on_body]; try (split; discriminate).
  destruct (authoritative d); cbn [negb].
  - destruct (record_of float_of_str d); split; discriminate.
  - split; reflexivity.
Qed.

Lemma attempts_S (n : nat) (rq : request) (w : World) :
  attempts float_of_str http_get (S n) rq w
  = let (rep, w1) := http_get rq w in
    match rep with
    | RequestException =>
        let '(out, w2, tr) := attempts float_of_str http_get n rq w1 in
        (out, w2, (rq, rep) :: tr)
    | Raised e => (Raise e, w1, [(rq, rep)])
    | Json data => (on_body float_of_str data, w1, [(rq, rep)])
    end.
Proof. reflexivity. Qed.

Lemma last_attempt_follows (left : nat) (rq : request) (rep : reply) (todo : list request)
    (rest : list call) :
  rep <> RequestException ->
  match reply_flow float_of_str (rq, rep) with
  | Next => follows (rq :: todo) left ((rq, rep) :: rest) = follows todo API_RETRIES rest
  | _ => follows (rq :: todo) left [(rq, rep)] = true
  end.
Proof.
  intros N. cbn [follows fst]. rewrite same_request. cbn [andb].
  unfold reply_flow, is_failure; cbn [snd].
  destruct rep as [| e | data]; [contradiction | reflexivity |].
  pose proof (body_miss rq data) as M.
  destruct (on_body float_of_str data); destruct (is_miss (rq, Json data));
    try reflexivity; destruct M as [M1 M2];
    try (specialize (M1 eq_refl)); try (specialize (M2 eq_refl)); discriminate.
Qed.

(** One visit of a pair: the attempts that are left. *)
Lemma attempts_follows (n : nat) (rq : request) (w : World) (todo : list request)
    (rest : list call) :
  match outcome (attempts float_of_str http_get (S n) rq w) with
  | Next =>
      follows (rq :: todo) (S n) (calls (attempts float_of_str http_get (S n) rq w) ++ rest)
      = follows todo API_RETRIES rest
  | _ =>
      follows (rq :: todo) (S n) (calls (attempts float_of_str http_get (S n) rq w)) = true
  end.
Proof.
  revert w. induction n as [| n IH]; intros w; rewrite attempts_S.
  - destruct (http_get rq w) as [rep w1]. destruct rep as [| e | data].
    + unfold outcome, calls; cbn [attempts fst snd app follows].
      rewrite same_request. reflexivity.
    + exact (last_attempt_follows 1 rq (Raised e) todo rest ltac:(discriminate)).
    + exact (last_attempt_follows 1 rq (Json data) todo rest ltac:(discriminate)).
  - destruct (http_get rq w) as [rep w1]. destruct rep as [| e | data].
    + specialize (IH w1).
      destruct (attempts float_of_str http_get (S n) rq w1) as [[out w2] tr].
      unfold outcome, calls in *; cbn [fst snd] in *.
      destruct out; cbn [app follows fst]; rewrite same_request; exact IH.
    + exact (last_attempt_follows (S (S n)) rq (Raised e) todo rest ltac:(discriminate)).
    + exact (last_attempt_follows (S (S n)) rq (Json data) todo rest ltac:(discriminate)).
Qed.

Lemma for_params_follows (ps : list request) (w : World) (todo : list request)
    (rest : list call) :
  match outcome (for_params float_of_str http_get ps w) with
  | Next =>
      follows (ps ++ todo) API_RETRIES (calls (for_params float_of_str http_get ps w) ++ rest)
      = follows todo API_RETRIES rest
  | _ =>
      follows (ps ++ todo) API_RETRIES (calls (for_params float_of_str http_get ps w)) = true
  end.
Proof.
  revert w rest. induction ps as [| rq ps IH]; intros w rest; cbn [for_params].
  - reflexivity.
  - pose proof (fun r => attempts_follows 1 rq w (ps ++ todo) r) as A.
    change 2%nat with API_RETRIES in A.
    destruct (attempts float_of_str http_get API_RETRIES rq w) as [[out w1] tr].
    unfold outcome, calls in A; cbn [fst snd] in A.
    destruct out; try (unfold outcome, calls; cbn [fst snd app]; exact (A [])).
    pose proof (IH w1) as B.
    destruct (for_params float_of_str http_get ps w1) as [[out' w2] tr'].
    unfold outcome, calls in B |- *; cbn [fst snd] in B |- *. cbn [app].
    destruct out'.
    + rewrite <- app_assoc, A. apply B.
    + rewrite A. exact (B []).
    + rewrite A. exact (B []).
Qed.

Lemma for_candidates_follows (cs : list pystr) (year : value) (yo : option Z) (w : World)
    (todo : list request) (rest : list call) :
  year_param int_of_str year = inr yo ->
  match outcome (for_candidates float_of_str int_of_str http_get cs year w) with
  | Next =>
      follows (plan cs yo ++ todo) API_RETRIES
        (calls (for_candidates float_of_str int_of_str http_get cs year w) ++ rest)
      = follows todo API_RETRIES rest
  | _ =>
      follows (plan cs yo ++ todo) API_RETRIES
        (calls (for_candidates float_of_str int_of_str http_get cs year w))
      = true
  end.
Proof.
  intros Y. revert w rest. induction cs as [| c cs IH]; intros w rest.
  - reflexivity.
  - rewrite (for_candidates_cons c cs year w yo Y). unfold plan in *. cbn [flat_map].
    rewrite <- app_assoc.
    pose proof (fun r => for_params_follows (pairs c yo) w
                           (flat_map (fun c0 => pairs c0 yo) cs ++ todo) r) as A.
    destruct (for_params float_of_str http_get (pairs c yo) w) as [[out w1] tr].
    unfold outcome, calls in A; cbn [fst snd] in A.
    destruct out; try (unfold outcome, calls; cbn [fst snd]; exact (A [])).
    pose proof (IH w1) as B.
    destruct (for_candidates float_of_str int_of_str http_get cs year w1) as [[out' w2] tr'].
    unfold outcome, calls in B |- *; cbn [fst snd] in B |- *.
    destruct out'.
    + rewrite <- app_assoc, A. apply B.
    + rewrite A. exact (B []).
    + rewrite A. exact (B []).
Qed.

Lemma plan_alternating (cs : list pystr) (n : Z) : alternating (plan cs (Some n)).
Proof.
  induction cs as [| c cs IH]; [exact I |].
  unfold plan in *. cbn [flat_map pairs app alternating].
  split; [discriminate |]. split; [| exact IH].
  destruct cs as [| c' cs]; [exact I |]. cbn. discriminate.
Qed.

Lemma follows_head (todo : list request) (left : nat) (c : call) (tr : list call) :
  follows todo left (c :: tr) = true -> exists todo', todo = fst c :: todo'.
Proof.
  cbn [follows]. destruct todo as [| p todo']; [discriminate |].
  intros F. apply andb_prop in F as [E _]. apply request_eqb_eq in E.
  exists todo'. rewrite E. reflexivity.
Qed.

(** Retries apart, the requests of an allowed run are the pairs to visit, in
    order, up to where the run ends. *)
Lemma follows_squash (tr : list call) (todo : list request) (left : nat) :
  alternating todo -> follows todo left tr = true ->
  exists rest, todo = squash (map fst tr) ++ rest.
Proof.
  revert todo left. induction tr as [| c tr IH]; intros todo left A F.
  - exists todo. reflexivity.
  - destruct (follows_head todo left c tr F) as (todo' & E). subst todo.
    assert (forall k, follows todo' k tr = true ->
                      exists rest, fst c :: todo' = squash (map fst (c :: tr)) ++ rest) as Adv.
    { intros k G. destruct A as [A1 A2].
      destruct tr as [| c' tr]; [exists todo'; reflexivity |].
      destruct (follows_head todo' k c' tr G) as (t2 & E2).
      destruct (IH todo' k A2 G) as (rest & R).
      rewrite E2 in A1. cbn beta iota in A1.
      change (squash (map fst (c :: c' :: tr)))
        with (if request_eqb (fst c) (fst c')
              then squash (map fst (c' :: tr))
              else fst c :: squash (map fst (c' :: tr))).
      destruct (request_eqb (fst c) (fst c')) eqn:X;
        [apply request_eqb_eq in X; contradiction |].
      exists rest. cbn [app]. f_equal. exact R. }
    cbn [follows] in F. rewrite same_request in F. cbn [andb] in F.
    destruct (is_failure c).
    + destruct left as [| [| k]]; try exact (Adv _ F).
      destruct tr as [| c' tr]; [discriminate |].
      destruct (follows_head _ _ c' tr F) as (t2 & E2). inversion E2 as [[E3 E4]].
      destruct (IH (fst c :: todo') (S k) A F) as (rest & R).
      change (squash (map fst (c :: c' :: tr)))
        with (if request_eqb (fst c) (fst c')
              then squash (map fst (c' :: tr))
              else fst c :: squash (map fst (c' :: tr))).
      rewrite <- E3, same_request. exists rest. rewrite <- E4. exact R.
    + destruct (is_miss c); [exact (Adv _ F) |].
      destruct tr; [| discriminate]. exists todo'. reflexivity.
Qed.

Lemma follows_miss (p : request) (todo : list request) (left : nat) (c : call)
    (tr : list call) :
  is_miss c = true ->
  follows (p :: todo) left (c :: tr)
  = request_eqb (fst c) p && follows todo API_RETRIES tr.
Proof.
  intros M. cbn [follows]. rewrite M.
  assert (is_failure c = false) as NF.
  { unfold is_miss in M. unfold is_failure. destruct (snd c); [discriminate | |]; reflexivity. }
  rewrite NF. reflexivity.
Qed.

(** What is left of an allowed run is allowed for what is left of the
    pairs. *)
Lemma follows_suffix (tr1 : list call) (c : call) (rest : list call)
    (todo : list request) (left : nat) :
  follows todo left (tr1 ++ c :: rest) = true ->
  exists todo1 todo2 left',
    todo = todo1 ++ todo2 /\ follows todo2 left' (c :: rest) = true.
Proof.
  revert todo left. induction tr1 as [| c0 tr1 IH]; intros todo left F.
  - exists [], todo, left. auto.
  - cbn [app] in F.
    destruct (follows_head todo left c0 _ F) as (todo' & E). subst todo.
    cbn [follows] in F. rewrite same_request in F. cbn [andb] in F.
    assert (forall k, follows todo' k (tr1 ++ c :: rest) = true ->
                      exists todo1 todo2 left',
                        fst c0 :: todo' = todo1 ++ todo2
                        /\ follows todo2 left' (c :: rest) = true) as Adv.
    { intros k G. destruct (IH todo' k G) as (t1 & t2 & l' & E & H).
      exists (fst c0 :: t1), t2, l'. rewrite E. auto. }
    destruct (is_failure c0).
    + destruct left as [| [| k]]; try exact (Adv _ F).
      exact (IH _ _ F).
    + destruct (is_miss c0); [exact (Adv _ F) |].
      destruct tr1; discriminate.
Qed.

(** In the pairs of a year, the pair with the year is followed by the pair
    of the same candidate without it, and that one by a pair with the
    year. *)
Lemma plan_neighbours (cs : list pystr) (n : Z) (l1 l2 : list request) (a b : request) :
  plan cs (Some n) = l1 ++ a :: b :: l2 ->
  (y a = Some n /\ b = {| t := t a; y := None |}) \/ (y a = None /\ y b = Some n).
Proof.
  revert l1. induction cs as [| c cs IH]; intros l1 E.
  - destruct l1; discriminate.
  - unfold plan in *. cbn [flat_map pairs app] in E.
    destruct l1 as [| x [| x' l1]]; cbn [app] in E.
    + inversion E. left. auto.
    + inversion E as [[E1 E2 E3]]. right. split; [reflexivity |].
      destruct cs as [| c' cs]; [discriminate |].
      cbn [flat_map pairs app] in E3. inversion E3. reflexivity.
    + inversion E as [[E1 E2 E3]]. exact (IH l1 E3).
Qed.

(** The run of the resolver is one the state machine allows. *)
Lemma fetch_follows (cs : list pystr) (year : value) (yo : option Z) (w : World) :
  year_param int_of_str year = inr yo ->
  follows (plan cs yo) API_RETRIES
    (calls (fetch_omdb_data float_of_str int_of_str http_get cs year w)) = true.
Proof.
  intros Y. rewrite fetch_calls.
  pose proof (for_candidates_follows cs year yo w [] [] Y) as A.
  rewrite !app_nil_r in A.
  destruct (outcome (for_candidates float_of_str int_of_str http_get cs year w)); exact A.
Qed.

(** C8, as amended. With a year that is true and that [int] takes, the
    pairs to visit are, for each candidate in turn, the candidate with the
    year and then the candidate without; and every run, whatever the
    service answers, goes through them as the state machine says: a failure
    is retried once, a no-match is followed at once by the next pair, the
    year-less variant of the same candidate included, and any other reply
    ends the run. So the requests of a run, retries apart, are these pairs
    in order, up to where the run ends; the call after one answered by a
    no-match is never for the same pair: it is for the same candidate
    without the year after the lookup with the year, and for a candidate
    with the year after a lookup without; and the requests are all the
    pairs, each once, when every reply is a no-match, the default record
    being returned then. *)
Theorem miss_advances (cands : list pystr) (year : value) (n : Z) (w : World) :
  truthy year = true ->
  py_int int_of_str year = inr n ->
  plan cands (Some n)
  = flat_map (fun c => [{| t := c; y := Some n |}; {| t := c; y := None |}]) cands
  /\ follows (plan cands (Some n)) API_RETRIES
       (calls (fetch_omdb_data float_of_str int_of_str http_get cands year w)) = true
  /\ (exists rest,
        plan cands (Some n)
        = squash (map fst (calls (fetch_omdb_data float_of_str int_of_str http_get
                                    cands year w))) ++ rest)
  /\ (forall tr1 c1 c2 tr2,
         calls (fetch_omdb_data float_of_str int_of_str http_get cands year w)
         = tr1 ++ c1 :: c2 :: tr2 ->
         is_miss c1 = true ->
         fst c2 <> fst c1
         /\ (y (fst c1) = Some n -> fst c2 = {| t := t (fst c1); y := None |})
         /\ (y (fst c1) = None -> y (fst c2) = Some n))
  /\ (Forall (fun c => is_miss c = true)
             (calls (fetch_omdb_data float_of_str int_of_str http_get cands year w)) ->
      map fst (calls (fetch_omdb_data float_of_str int_of_str http_get cands year w))
      = plan cands (Some n)
      /\ outcome (fetch_omdb_data float_of_str int_of_str http_get cands year w)
         = inr default)
  /\ (forall (rq : request) (w0 : World),
         is_miss (rq, fst (http_get rq w0)) = true ->
         attempts float_of_str http_get API_RETRIES rq w0
         = (Next, snd (http_get rq w0), [(rq, fst (http_get rq w0))])).
Proof.
  intros T P.
  assert (year_param int_of_str year = inr (Some n)) as Y
    by (unfold year_param; rewrite T, P; reflexivity).
  pose proof (fetch_follows cands year (Some n) w Y) as F.
  split; [reflexivity |]. split; [exact F |]. split; [| split; [| split]].
  - exact (follows_squash _ _ _ (plan_alternating cands n) F).
  - intros tr1 c1 c2 tr2 E M. rewrite E in F.
    destruct (follows_suffix tr1 c1 (c2 :: tr2) _ _ F) as (t1 & t2 & k & P1 & G).
    destruct (follows_head _ _ _ _ G) as (t3 & E3). subst t2.
    rewrite (follows_miss _ _ _ _ _ M), same_request in G. cbn [andb] in G.
    destruct (follows_head _ _ _ _ G) as (t4 & E4). subst t3.
    destruct (plan_neighbours cands n t1 t4 (fst c1) (fst c2) P1) as [[A B] | [A B]].
    + split; [| split].
      * rewrite B. intros X. rewrite <- X in A. cbn in A. discriminate.
      * intros _. exact B.
      * intros X. rewrite X in A. discriminate.
    + split; [| split].
      * intros X. rewrite X, A in B. discriminate.
      * intros X. rewrite X in A. discriminate.
      * intros _. exact B.
  - intros M. rewrite fetch_calls in *. rewrite fetch_outcome.
    destruct (for_candidates_miss cands year (Some n) w Y M) as [O E].
    rewrite O, E. split; reflexivity.
  - intros rq w0. apply (attempts_first_miss 1).
Qed.

End ResolverFacts.

(** *** Runs of the resolver *)

(** Every lookup fails: four lookups a candidate. *)
Example run_all_failing :
  fetch_omdb_data float_rows int_rows (always RequestException) [str "A"; str "B"]
    (VInt 1999) tt
  = (inr default, tt,
     [(query "A" (Some 1999%Z), RequestException); (query "A" (Some 1999%Z), RequestException);
      (query "A" None, RequestException); (query "A" None, RequestException);
      (query "B" (Some 1999%Z), RequestException); (query "B" (Some 1999%Z), RequestException);
      (query "B" None, RequestException); (query "B" None, RequestException)]).
Proof. reflexivity. Qed.

Lemma retry_budget_witness :
  Forall (fun c => is_failure c = true)
    (calls (attempts float_rows (always RequestException) API_RETRIES (query "A" None) tt))
  /\ outcome (attempts float_rows (always RequestException) API_RETRIES (query "A" None) tt)
     = Next
  /\ calls (attempts float_rows (always RequestException) API_RETRIES (query "A" None) tt)
     = [(query "A" None, RequestException); (query "A" None, RequestException)].
Proof.
  assert (Forall (fun c => is_failure c = true)
            (calls (attempts float_rows (always RequestException) API_RETRIES
                      (query "A" None) tt))) as F
    by (repeat constructor).
  split; [exact F |].
  exact (proj2 (proj2 (proj1 (retry_budget float_rows int_rows unit (always RequestException)
                                 [str "A"] VNone tt) (query "A" None) tt)) F).
Defined.

(** C1 fails as stated, in three ways. The year of a title without one
    reaches the resolver as NaN when other titles have one: it is true, and
    [int] refuses it before any lookup. An authoritative reply whose rating
    is the empty string makes [float] raise ValueError. And a candidate that
    cannot be encoded, a lone surrogate, makes the request raise an error
    that is no RequestException. Each leaves the resolver. *)
Lemma fetch_raises :
  fetch_omdb_data float_rows int_rows (always miss) [str "A"] (VFloat nan) tt
  = (inl ValueError, tt, [])
  /\ fetch_omdb_data float_rows int_rows scripted [str "A"] VNone [hit_unrated]
     = (inl ValueError, [], [(query "A" None, hit_unrated)])
  /\ fetch_omdb_data float_rows int_rows scripted [[0xD800]] VNone
       [Raised UnicodeEncodeError]
     = (inl UnicodeEncodeError, [],
        [({| t := [0xD800]; y := None |}, Raised UnicodeEncodeError)]).
Proof. repeat split. Qed.

Lemma fetch_returns_record_witness :
  year_ok int_rows (VFloat 1999) = true
  /\ Forall (fun c => reply_ok float_rows c = true)
       (calls (fetch_omdb_data float_rows int_rows scripted [str "A"; str "B"]
                 (VFloat 1999) [RequestException; miss; hit]))
  /\ exists r : EnrichmentRecord,
      outcome (fetch_omdb_data float_rows int_rows scripted [str "A"; str "B"]
                 (VFloat 1999) [RequestException; miss; hit]) = inr r
      /\ ((r = default
           /\ Forall (fun c => is_hit c = false)
                (calls (fetch_omdb_data float_rows int_rows scripted [str "A"; str "B"]
                          (VFloat 1999) [RequestException; miss; hit])))
          \/ (exists tr0 rq d,
                 calls (fetch_omdb_data float_rows int_rows scripted [str "A"; str "B"]
                          (VFloat 1999) [RequestException; miss; hit])
                 = tr0 ++ [(rq, Json (VDict d))]
                 /\ authoritative d = true
                 /\ record_of float_rows d = inr r)).
Proof.
  assert (Forall (fun c => reply_ok float_rows c = true)
            (calls (fetch_omdb_data float_rows int_rows scripted [str "A"; str "B"]
                      (VFloat 1999) [RequestException; miss; hit]))) as K
    by (repeat constructor).
  split; [reflexivity |]. split; [exact K |].
  exact (fetch_returns_record float_rows int_rows (list reply) scripted
           [str "A"; str "B"] (VFloat 1999) [RequestException; miss; hit] eq_refl K).
Defined.

(** The run of that witness: a failure and its retry answered by a
    no-match, then the authoritative reply to the unconstrained lookup. *)
Example run_retry_then_hit :
  fetch_omdb_data float_rows int_rows scripted [str "A"; str "B"] (VFloat 1999)
    [RequestException; miss; hit]
  = (inr hit_record,
     [],
     [(query "A" (Some 1999%Z), RequestException); (query "A" (Some 1999%Z), miss);
      (query "A" None, hit)]).
Proof. reflexivity. Qed.

(** C2 fails as stated: the first lookup is answered by an authoritative
    reply and no record is returned, the rating conversion raises. No
    lookup follows. *)
Lemma first_hit_without_record :
  fetch_omdb_data float_rows int_rows scripted [str "A"; str "B"] (VInt 1999)
    [hit_unrated; hit; hit; hit]
  = (inl ValueError, [hit; hit; hit], [(query "A" (Some 1999%Z), hit_unrated)]).
Proof. reflexivity. Qed.

Lemma fetch_stops_at_first_hit_witness :
  calls (fetch_omdb_data float_rows int_rows scripted [str "A"; str "B"] (VInt 1999)
           [miss; hit; hit; hit])
  = [(query "A" (Some 1999%Z), miss)]
    ++ (query "A" None,
        Json (VDict [(str "Response", VStr (str "True"));
                     (str "imdbID", VStr (str "tt0133093"));
                     (str "Director", VStr (str ""));
                     (str "imdbRating", VStr (str "7.5"))])) :: []
  /\ outcome (fetch_omdb_data float_rows int_rows scripted [str "A"; str "B"] (VInt 1999)
                [miss; hit; hit; hit])
     = inr {| imdb_id := VStr (str "tt0133093");
              plot := VStr (str "Not Available");
              director := VStr (str "Unknown");
              box_office := VNone;
              runtime := VNone;
              imdb_rating := Some 7.5%float |}.
Proof.
  split; [reflexivity |].
  exact (proj2 (proj2 (fetch_stops_at_first_hit float_rows int_rows (list reply) scripted
                         [str "A"; str "B"] (VInt 1999) [miss; hit; hit; hit]
                         [(query "A" (Some 1999%Z), miss)] [] (query "A" None) _
                         eq_refl eq_refl))).
Defined.

(** C8 fails as stated: the year 0 is a year the caller gives, and [if
    year] takes it for none, so that no year-constrained lookup is made. *)
Lemma year_zero_unconstrained_only :
  fetch_omdb_data float_rows int_rows (always miss) [str "A"] (VInt 0) tt
  = (inr default, tt, [(query "A" None, miss)]).
Proof. reflexivity. Qed.

Lemma miss_advances_witness :
  truthy (VFloat 1999) = true
  /\ py_int int_rows (VFloat 1999) = inr 1999%Z
  /\ follows [query "A" (Some 1999%Z); query "A" None; query "B" (Some 1999%Z); query "B" None]
       API_RETRIES
       (calls (fetch_omdb_data float_rows int_rows scripted [str "A"; str "B"] (VFloat 1999)
                 [RequestException; miss; hit]))
     = true
  /\ exists rest,
      [query "A" (Some 1999%Z); query "A" None; query "B" (Some 1999%Z); query "B" None]
      = squash (map fst (calls (fetch_omdb_data float_rows int_rows scripted
                                  [str "A"; str "B"] (VFloat 1999)
                                  [RequestException; miss; hit]))) ++ rest.
Proof.
  split; [reflexivity |]. split; [reflexivity |].
  pose proof (miss_advances float_rows int_rows (list reply) scripted [str "A"; str "B"]
                (VFloat 1999) 1999 [RequestException; miss; hit] eq_refl eq_refl)
    as (_ & F & S & _).
  split; [exact F | exact S].
Defined.

(** The requests of that run, retries apart: the first candidate with the
    year, then without. *)
Example run_retry_then_hit_requests :
  squash (map fst (calls (fetch_omdb_data float_rows int_rows scripted [str "A"; str "B"]
                            (VFloat 1999) [RequestException; miss; hit])))
  = [query "A" (Some 1999%Z); query "A" None].
Proof. reflexivity. Qed.

(** * The year the resolver receives *)






Section ColumnFacts.

Variable U : unicodedata.




End ColumnFacts.




(** The other cases of the column: every title with a year, none with one,
    and the year 0000. *)
Example release_year_cells_cases :
  release_year_cells ucd_rows [str "Toy Story (1995)"; str "Heat (1995)"]
  = [VInt 1995; VInt 1995]
  /\ release_year_cells ucd_rows [str "Toy Story"; str "Heat"] = [VNone; VNone]
  /\ release_year_cells ucd_rows [str "Year Zero (0000)"; str "Heat"]
     = [VFloat 0; VFloat nan]
  /\ year_param int_rows (VFloat 0) = inr None.
Proof. repeat split. Qed.
(** * The candidate generator *)

Section GeneratorFacts.

Variable U : unicodedata.

Lemma add_candidate_length (candidates : list pystr) (x : option pystr) :
  (length (add_candidate candidates x) <= S (length candidates))%nat.
Proof.
  unfold add_candidate. destruct x as [x |]; [| lia].
  destruct (nonempty x && negb (str_in x candidates)); [| lia].
  rewrite length_app. cbn. lia.
Qed.

Lemma first_loop_length (ts : list (option pystr)) (candidates : list pystr) :
  (length (fold_left add_candidate ts candidates) <= length candidates + length ts)%nat.
Proof.
  revert candidates. induction ts as [| x ts IH]; intros candidates; cbn.
  - lia.
  - specialize (IH (add_candidate candidates x)).
    pose proof (add_candidate_length candidates x). lia.
Qed.

Lemma add_translit_length (candidates : list pystr) (c : pystr) :
  (length (add_translit U candidates c) <= S (length candidates))%nat.
Proof.
  unfold add_translit.
  destruct (negb (pystr_eqb (strip_marks U c) c) && negb (str_in (strip_marks U c) candidates));
    [| lia].
  rewrite length_app. cbn. lia.
Qed.

Lemma second_loop_length (copy candidates : list pystr) :
  (length (fold_left (add_translit U) copy candidates) <= length candidates + length copy)%nat.
Proof.
  revert candidates. induction copy as [| c copy IH]; intros candidates; cbn.
  - lia.
  - specialize (IH (add_translit U candidates c)).
    pose proof (add_translit_length candidates c). lia.
Qed.

(** C10. The candidate list of a title has at most 8 entries: the first
    loop keeps at most the four transform outputs, the second adds at most
    one variant for each of them; so that the lookups for one title are at
    most 8 * 2 * 2, whatever the service answers. *)
Theorem candidates_bounded (title : pystr) :
  (length (generate_title_candidates U title) <= 8)%nat
  /\ forall (float_of_str : pystr -> option float) (int_of_str : pystr -> option Z)
            (World : Type) (http_get : request -> World -> reply * World)
            (year : value) (w : World),
      (length (calls (fetch_omdb_data float_of_str int_of_str http_get
                        (generate_title_candidates U title) year w)) <= 32)%nat.
Proof.
  assert (length (generate_title_candidates U title) <= 8)%nat as B.
  { unfold generate_title_candidates.
    destruct (negb (nonempty (base_clean U title))); [cbn; lia |].
    rewrite length_map.
    set (ts := [Some (move_trailing_article (base_clean U title));
                Some (remove_parenthetical_alternates (base_clean U title));
                extract_parenthetical_alternate (base_clean U title);
                Some (base_clean U title)]).
    pose proof (first_loop_length ts []) as F1.
    pose proof (second_loop_length (fold_left add_candidate ts [])
                  (fold_left add_candidate ts [])) as F2.
    pose proof (filter_length_le nonempty
                  (fold_left (add_translit U) (fold_left add_candidate ts [])
                     (fold_left add_candidate ts []))) as F3.
    change (length ts) with 4%nat in F1. cbn [length] in F1. lia. }
  split; [exact B |].
  intros float_of_str int_of_str World http_get year w.
  rewrite fetch_calls.
  pose proof (for_candidates_calls float_of_str int_of_str World http_get
                (generate_title_candidates U title) year w) as C.
  change API_RETRIES with 2%nat in C. lia.
Qed.

End GeneratorFacts.

(** C5, on the code. The final comprehension tidies the white space of the
    candidates after the empty and the repeated ones were set aside, and
    the variant of a title without its marks can be blank or differ from
    another candidate by white space only: the list of a lone diaeresis
    ends with the empty string, and "A B" comes twice in the list of the
    second title. *)
Theorem candidates_blank_and_repeated :
  generate_title_candidates ucd_rows diaeresis_1995 = [[0xA8]; []]
  /\ generate_title_candidates ucd_rows a_b_1995
     = [str "A " ++ [0xA8] ++ str " B (A B)";
        str "A " ++ [0xA8] ++ str " B";
        str "A B";
        str "A B (A B)";
        str "A B"].
Proof. split; reflexivity. Qed.

(** The transforms on the titles the specification quotes. *)
Example article_matrix :
  move_trailing_article (str "Matrix, The") = str "The Matrix"
  /\ move_trailing_article (str "Matrix, the") = str "the Matrix"
  /\ move_trailing_article amelie = amelie.
Proof. repeat split. Qed.

Example parentheses_city :
  remove_parenthetical_alternates (str "City of Lost Children, The (Cite des enfants perdus, La)")
  = str "City of Lost Children, The"
  /\ extract_parenthetical_alternate (str "Alien (a.k.a. Alien 1) (Director's Cut)")
     = Some (str "a.k.a. Alien 1")
  /\ extract_parenthetical_alternate (str "City (Cite des enfants perdus, La)") = None.
Proof. repeat split. Qed.

Example years :
  release_year ucd_rows (str "Matrix, The (1999)") = Some 1999%Z
  /\ release_year ucd_rows (str "Matrix, The") = None
  /\ release_year ucd_rows (str "Matrix (19999)") = None.
Proof. repeat split. Qed.

(** The order of the candidates on two titles: the inverted article first,
    the base last, the variants without marks after them. *)
Example candidates_matrix :
  generate_title_candidates ucd_rows (str "Matrix, The (1999)")
  = [str "The Matrix"; str "Matrix, The"].
Proof. reflexivity. Qed.

Example candidates_amelie :
  generate_title_candidates ucd_rows (amelie ++ str " (Le Fabuleux) (2001)")
  = [amelie ++ str " (Le Fabuleux)"; amelie; str "Le Fabuleux";
     str "Amelie (Le Fabuleux)"; str "Amelie"].
Proof. reflexivity. Qed.

(** * Further properties of the code *)

(** * White space, further *)

Lemma visible_lstrip (s : pystr) : visible (lstrip isspace s) = visible s.
Proof.
  induction s as [| c s IH]; [reflexivity |]. cbn.
  destruct (isspace c) eqn:P; cbn; [exact IH | rewrite P; reflexivity].
Qed.

Lemma visible_all (s : pystr) : forallb isspace s = true -> visible s = [].
Proof.
  induction s as [| c s IH]; [reflexivity |]. cbn.
  destruct (isspace c); cbn; [exact IH | discriminate].
Qed.

Lemma visible_rstrip (s : pystr) : visible (rstrip isspace s) = visible s.
Proof.
  induction s as [| c s IH]; [reflexivity |]. rewrite rstrip_cons.
  destruct (forallb isspace (c :: s)) eqn:F.
  - symmetry. apply visible_all, F.
  - unfold visible in *. cbn [filter]. rewrite IH. reflexivity.
Qed.

Lemma visible_squeeze (inside : bool) (s : pystr) : visible (squeeze inside s) = visible s.
Proof.
  revert inside. induction s as [| c s IH]; intros inside; [reflexivity |]. cbn.
  destruct (isspace c) eqn:P; cbn.
  - destruct inside; cbn; apply IH.
  - rewrite P. cbn. rewrite IH. reflexivity.
Qed.

(** X1. [tidy_whitespace] gives a normal form: its result has no white
    space at either end, every white-space character of it is a single
    space between two others, tidying it again changes nothing, and the
    characters that are not white space are those of the argument, in the
    same order. *)
Theorem tidy_whitespace_normal (s : pystr) :
  tidy_whitespace (tidy_whitespace s) = tidy_whitespace s
  /\ neat (tidy_whitespace s) = true
  /\ clear_head isspace (tidy_whitespace s) = true
  /\ clear_head isspace (rev (tidy_whitespace s)) = true
  /\ visible (tidy_whitespace s) = visible s.
Proof.
  destruct (tidy_whitespace_shape s) as (N & L & R).
  split; [apply tidy_whitespace_fixed; assumption |].
  split; [exact N |].
  split; [apply clear_head_fixed, L |].
  split; [apply clear_last_fixed, R |].
  rewrite tidy_whitespace_squeeze. unfold strip, strip_by.
  rewrite visible_rstrip, visible_lstrip. apply visible_squeeze.
Qed.

(** * Cleaning a title, further *)

Section BaseCleanMore.

Variable U : unicodedata.

Lemma year_tail_ends_stripped (x s : pystr) :
  year_tail U s = true -> ends_with_year U (rstrip isspace (x ++ s)) = true.
Proof.
  intros Y. unfold year_tail in Y.
  destruct (lstrip_split isspace s) as (l & E & L).
  destruct (lstrip isspace s) as [| a [| d1 [| d2 [| d3 [| d4 [| b w]]]]]]; try discriminate.
  apply andb_prop in Y as [Y W].
  assert (0x29 = b) as B.
  { apply andb_prop in Y as [_ Y]. apply N.eqb_eq, Y. }
  subst b.
  assert (rstrip isspace (x ++ s) = (x ++ l) ++ [a; d1; d2; d3; d4] ++ [0x29]) as R.
  { rewrite E, app_assoc.
    exact (rstrip_after isspace (x ++ l) [a; d1; d2; d3; d4] w 0x29 eq_refl W). }
  rewrite R.
  unfold ends_with_year. rewrite !rev_app_distr. cbn. exact Y.
Qed.

Lemma cut_year_plain (x s : pystr) :
  ends_with_year U (rstrip isspace (x ++ s)) = false -> cut_year U s = s.
Proof.
  revert x. induction s as [| c s IH]; intros x N.
  - cbn. destruct (year_tail U []); reflexivity.
  - cbn [cut_year]. destruct (year_tail U (c :: s)) eqn:Y.
    + rewrite (year_tail_ends_stripped x (c :: s) Y) in N. discriminate.
    + f_equal. apply (IH (x ++ [c])). rewrite <- app_assoc. exact N.
Qed.

(** X2. The result of [base_clean] is always in normal form (no white
    space at either end, single spaces inside); and a title that does not
    end, white space apart, with a [(YYYY)] block loses only the white
    space and the quotes at its ends and its repeated white space. *)
Theorem base_clean_plain (title : pystr) :
  (neat (base_clean U title) = true
   /\ clear_head isspace (base_clean U title) = true
   /\ clear_head isspace (rev (base_clean U title)) = true)
  /\ (ends_with_year U (rstrip isspace title) = false ->
      base_clean U title
      = tidy_whitespace (strip_chars [0x20; 0x22; 0x27] (strip title))).
Proof.
  split.
  - rewrite base_clean_steps.
    destruct (tidy_whitespace_shape
                (strip_chars [0x20; 0x22; 0x27] (strip (cut_year U title))))
      as (N & L & R).
    split; [exact N |]. split; [apply clear_head_fixed, L | apply clear_last_fixed, R].
  - intros N. rewrite base_clean_steps, (cut_year_plain [] title N). reflexivity.
Qed.

End BaseCleanMore.

Lemma base_clean_plain_witness :
  ends_with_year ucd_rows (rstrip isspace (str " 'Heat  (director's cut)' ")) = false
  /\ base_clean ucd_rows (str " 'Heat  (director's cut)' ") = str "Heat (director's cut)".
Proof.
  split; [reflexivity |].
  rewrite (proj2 (base_clean_plain ucd_rows (str " 'Heat  (director's cut)' ")) eq_refl).
  reflexivity.
Defined.

(** * Matching, further *)

Lemma char_in_In (c : char) (s : pystr) : char_in c s = true <-> In c s.
Proof.
  unfold char_in. rewrite existsb_exists. split.
  - intros (x & I & E). apply N.eqb_eq in E. subst. exact I.
  - intros I. exists c. split; [exact I | apply N.eqb_refl].
Qed.

Lemma char_in_none (c : char) (s : pystr) : char_in c s = false <-> ~ In c s.
Proof.
  rewrite <- char_in_In. destruct (char_in c s); split; intros; try discriminate; auto.
  exfalso; auto.
Qed.

(** Below the letters a character matches itself only, IGNORECASE or not. *)
Lemma sre_lower_low (x c : char) : sre_lower x = c -> c < 0x41 -> x = c.
Proof.
  unfold sre_lower.
  destruct (N.leb_spec 0x41 x), (N.leb_spec x 0x5A); cbn [andb]; try lia;
    destruct (N.leb_spec 0xC0 x), (N.leb_spec x 0xDE), (N.eqb_spec x 0xD7);
    cbn [andb negb]; try lia;
    destruct (N.eqb_spec x 0x130), (N.eqb_spec x 0x212A); lia.
Qed.

Lemma lit_i_low (c x : char) :
  c < 0x41 ->
  ((sre_lower x =? sre_lower c) || char_in (sre_lower x) (ignorecase_fixes (sre_lower c)))
  = (x =? c).
Proof.
  intros L.
  assert (sre_lower c = c) as C.
  { unfold sre_lower.
    destruct (N.leb_spec 0x41 c); cbn [andb]; [lia |].
    destruct (N.leb_spec 0xC0 c); cbn [andb]; [lia |].
    destruct (N.eqb_spec c 0x130); [lia |]. destruct (N.eqb_spec c 0x212A); [lia |].
    reflexivity. }
  rewrite C. unfold ignorecase_fixes.
  destruct (N.eqb_spec c 0x69); [lia |]. destruct (N.eqb_spec c 0x73); [lia |].
  cbn [char_in existsb]. rewrite orb_false_r.
  destruct (N.eqb_spec (sre_lower x) c) as [E | E], (N.eqb_spec x c) as [F | F];
    try reflexivity.
  - exfalso. apply F. apply sre_lower_low; assumption.
  - exfalso. apply E. subst x. exact C.
Qed.

Lemma isspace_lower (c : char) : isspace c = true -> sre_lower c = c.
Proof.
  unfold isspace, sre_lower. intros S.
  repeat rewrite ?orb_true_iff, ?andb_true_iff, ?N.leb_le, ?N.eqb_eq in S.
  destruct (N.leb_spec 0x41 c), (N.leb_spec c 0x5A); cbn [andb]; try lia;
    destruct (N.leb_spec 0xC0 c), (N.leb_spec c 0xDE), (N.eqb_spec c 0xD7);
    cbn [andb negb]; try lia;
    destruct (N.eqb_spec c 0x130), (N.eqb_spec c 0x212A); lia.
Qed.

(** A greedy run fails when what follows it fails wherever it is tried. *)
Lemma rep_greedy_fails (p : char -> bool) (s : pystr) (g : groups) (k : cont) :
  (forall s1, incl s1 s -> k s1 g = None) -> rep_greedy p s g k = None.
Proof.
  induction s as [| c s IH]; intros K; cbn.
  - apply K, incl_refl.
  - assert (rep_greedy p s g k = None) as R.
    { apply IH. intros s1 I. apply K. apply incl_tl, I. }
    destruct (p c); [rewrite R |]; apply K, incl_refl.
Qed.

(** A substitution leaves alone a text in which the pattern matches
    nowhere. *)
Lemma sub_loop_no_match (n0 : nat) (r : regex) (repl s : pystr) :
  (forall s1, incl s1 s -> match_at n0 r s1 = None) ->
  sub_loop n0 r repl 0 s = s.
Proof.
  induction s as [| c s IH]; intros M; cbn [sub_loop].
  - rewrite (M [] (incl_refl _)). reflexivity.
  - rewrite (M (c :: s) (incl_refl _)). f_equal.
    apply IH. intros s1 I. apply M, incl_tl, I.
Qed.

Lemma incl_lstrip (p : char -> bool) (s : pystr) : incl (lstrip p s) s.
Proof.
  destruct (lstrip_split p s) as (l & E & _). rewrite E at 2.
  apply incl_appr, incl_refl.
Qed.

Lemma incl_rstrip (p : char -> bool) (s : pystr) : incl (rstrip p s) s.
Proof.
  induction s as [| c s IH]; [apply incl_refl |]. rewrite rstrip_cons.
  destruct (forallb p (c :: s)); [intros x [] |].
  intros x [E | I]; [left; exact E | right; apply IH, I].
Qed.

Lemma incl_strip_by (p : char -> bool) (s : pystr) : incl (strip_by p s) s.
Proof.
  unfold strip_by. eapply incl_tran; [apply incl_rstrip | apply incl_lstrip].
Qed.

(** ** The trailing article *)

Lemma no_article_match (n0 : nat) (t : pystr) :
  char_in 0x2C t = false -> match_at n0 trailing_article_re t = None.
Proof.
  intros C. apply char_in_none in C.
  unfold match_at, trailing_article_re, seq, star, lit_i. cbn [fold_right run].
  destruct (Nat.eqb (length t) n0); [| reflexivity].
  apply rep_greedy_fails. intros s1 I.
  destruct s1 as [| c s1]; [reflexivity |]. cbn beta.
  rewrite lit_i_low by reflexivity.
  destruct (N.eqb_spec c 0x2C) as [E |]; [| reflexivity].
  exfalso. apply C, I. left. exact E.
Qed.

(** X3. A title without a comma is returned by [move_trailing_article] as
    it is. *)
Theorem move_trailing_article_no_comma (t : pystr) :
  char_in 0x2C t = false -> move_trailing_article t = t.
Proof.
  intros C. unfold move_trailing_article, re_match.
  rewrite no_article_match by exact C. reflexivity.
Qed.

Lemma move_trailing_article_no_comma_witness :
  char_in 0x2C (str "The Matrix Reloaded") = false
  /\ move_trailing_article (str "The Matrix Reloaded") = str "The Matrix Reloaded".
Proof.
  split; [reflexivity |].
  exact (move_trailing_article_no_comma (str "The Matrix Reloaded") eq_refl).
Defined.

(** ** Parentheses *)

Lemma no_marked_paren_match (n0 : nat) (s : pystr) :
  char_in 0x28 s = false -> match_at n0 marked_paren_re s = None.
Proof.
  intros C. apply char_in_none in C.
  unfold match_at, marked_paren_re, seq, star, lit_i. cbn [fold_right run].
  rewrite rep_greedy_commit.
  - destruct (lstrip isspace s) as [| c s1] eqn:E; [reflexivity |]. cbn beta.
    rewrite lit_i_low by reflexivity.
    destruct (N.eqb_spec c 0x28) as [F |]; [| reflexivity].
    exfalso. apply C, (incl_lstrip isspace s). rewrite E. left. exact F.
  - intros c s' P. cbn beta. rewrite lit_i_low by reflexivity.
    destruct (N.eqb_spec c 0x28); [subst; discriminate | reflexivity].
Qed.

Lemma no_any_paren_match (n0 : nat) (s : pystr) :
  char_in 0x28 s = false -> match_at n0 any_paren_re s = None.
Proof.
  intros C. apply char_in_none in C.
  unfold match_at, any_paren_re, seq, star, lit. cbn [fold_right run].
  rewrite rep_greedy_commit.
  - destruct (lstrip isspace s) as [| c s1] eqn:E; [reflexivity |].
    destruct (N.eqb_spec 0x28 c) as [F |]; [| reflexivity].
    exfalso. apply C, (incl_lstrip isspace s). rewrite E. left. symmetry. exact F.
  - intros c s' P.
    destruct (N.eqb_spec 0x28 c); [subst; discriminate | reflexivity].
Qed.

Lemma char_in_incl (c : char) (s1 s : pystr) :
  incl s1 s -> char_in c s = false -> char_in c s1 = false.
Proof. rewrite !char_in_none. intros I N H. apply N, I, H. Qed.

(** X4. The result of [remove_parenthetical_alternates] is in normal form,
    and a title without an opening parenthesis only has its white space
    tidied. *)
Theorem remove_parenthetical_alternates_plain (t : pystr) :
  (neat (remove_parenthetical_alternates t) = true
   /\ clear_head isspace (remove_parenthetical_alternates t) = true
   /\ clear_head isspace (rev (remove_parenthetical_alternates t)) = true)
  /\ (char_in 0x28 t = false -> remove_parenthetical_alternates t = tidy_whitespace t).
Proof.
  split.
  - unfold remove_parenthetical_alternates.
    destruct (tidy_whitespace_shape
                (re_sub any_paren_re (str " ") (re_sub marked_paren_re (str " ") t)))
      as (N & L & R).
    split; [exact N |]. split; [apply clear_head_fixed, L | apply clear_last_fixed, R].
  - intros C. unfold remove_parenthetical_alternates, re_sub.
    rewrite (sub_loop_no_match (length t) marked_paren_re).
    + rewrite sub_loop_no_match; [reflexivity |].
      intros s1 I. apply no_any_paren_match, (char_in_incl _ _ _ I C).
    + intros s1 I. apply no_marked_paren_match, (char_in_incl _ _ _ I C).
Qed.

Lemma remove_parenthetical_alternates_plain_witness :
  char_in 0x28 (str " Blade   Runner ") = false
  /\ remove_parenthetical_alternates (str " Blade   Runner ") = str "Blade Runner".
Proof.
  split; [reflexivity |].
  rewrite (proj2 (remove_parenthetical_alternates_plain (str " Blade   Runner ")) eq_refl).
  reflexivity.
Defined.

Lemma rep_greedy_skip (p : char -> bool) (a b : pystr) (g : groups) (k : cont)
    (m : pystr * groups) :
  forallb p a = true -> rep_greedy p b g k = Some m ->
  rep_greedy p (a ++ b) g k = Some m.
Proof.
  intros A B. induction a as [| c a IH]; [exact B |]. cbn in *.
  destruct (p c); [| discriminate]. rewrite (IH A). reflexivity.
Qed.

Lemma rep_greedy_at (p : char -> bool) (b : pystr) (g : groups) (k : cont) :
  (forall x y, b = x ++ y -> x <> [] -> k y g = None) ->
  rep_greedy p b g k = k b g.
Proof.
  induction b as [| c b IH]; intros K; [reflexivity |]. cbn.
  destruct (p c); [| reflexivity].
  rewrite IH.
  - rewrite (K [c] b eq_refl); [reflexivity | discriminate].
  - intros x y E N. apply (K (c :: x) y); [rewrite E; reflexivity | discriminate].
Qed.

Lemma firstn_app_len (a b : pystr) :
  firstn (length (a ++ b) - length b) (a ++ b) = a.
Proof.
  rewrite length_app. replace (length a + length b - length b)%nat with (length a) by lia.
  rewrite firstn_app, Nat.sub_diag, firstn_all. cbn. apply app_nil_r.
Qed.

Lemma pystr_eqb_eq (a b : pystr) : pystr_eqb a b = true <-> a = b.
Proof. unfold pystr_eqb. destruct (list_eq_dec N.eq_dec a b); split; auto; discriminate. Qed.

Lemma lower_not_space (c l : char) : sre_lower c = l -> isspace l = false -> isspace c = false.
Proof.
  intros E S. destruct (isspace c) eqn:P; [| reflexivity].
  rewrite (isspace_lower c P) in E. subst. rewrite P in S. discriminate.
Qed.

Lemma article_cases (art : pystr) :
  is_article art = true ->
  (exists a b c, art = [a; b; c] /\ sre_lower a = 0x74 /\ sre_lower b = 0x68
                 /\ sre_lower c = 0x65)
  \/ (exists a, art = [a] /\ sre_lower a = 0x61)
  \/ (exists a b, art = [a; b] /\ sre_lower a = 0x61 /\ sre_lower b = 0x6E).
Proof.
  unfold is_article. cbn [existsb]. rewrite !orb_true_iff, !pystr_eqb_eq.
  intros [E | [E | [E | E]]]; [| | | discriminate].
  - left. destruct art as [| a [| b [| c [| d r]]]]; try discriminate.
    inversion E. eauto 10.
  - right. left. destruct art as [| a [| b r]]; try discriminate.
    inversion E. eauto.
  - right. right. destruct art as [| a [| b [| c r]]]; try discriminate.
    inversion E. eauto 10.
Qed.

Lemma article_tail_space (n0 : nat) (c : char) (s : pystr) (g : groups) :
  isspace c = true ->
  run n0 (Cat (Grp 2 (alts (word_i (str "The")) [word_i (str "A"); word_i (str "An")]))
            (Cat Eos Eps))
    (c :: s) g (fun s' g' => Some (s', g'))
  = None.
Proof.
  intros P. cbn. rewrite (isspace_lower c P).
  destruct (N.eqb_spec c 116); [subst; discriminate |].
  destruct (N.eqb_spec c 97); [subst; discriminate |]. reflexivity.
Qed.

Lemma article_tail_match (n0 : nat) (art : pystr) (g : groups) :
  is_article art = true ->
  run n0 (Cat (Grp 2 (alts (word_i (str "The")) [word_i (str "A"); word_i (str "An")]))
            (Cat Eos Eps))
    art g (fun s' g' => Some (s', g'))
  = Some ([], (2%nat, art) :: g).
Proof.
  intros A.
  destruct (article_cases art A)
    as [(a & b & c & E & Ha & Hb & Hc) | [(a & E & Ha) | (a & b & E & Ha & Hb)]];
    subst art; cbn.
  - rewrite Ha, Hb, Hc. reflexivity.
  - rewrite Ha. reflexivity.
  - rewrite Ha, Hb. cbn.
    destruct (N.eqb_spec b 10); [subst b; discriminate | reflexivity].
Qed.

Lemma article_head (art : pystr) : is_article art = true -> clear_head isspace art = true.
Proof.
  intros A.
  destruct (article_cases art A)
    as [(a & b & c & E & Ha & _) | [(a & E & Ha) | (a & b & E & Ha & _)]];
    subst art; cbn; rewrite (lower_not_space a _ Ha eq_refl); reflexivity.
Qed.

Lemma article_no_comma (art : pystr) : is_article art = true -> char_in 0x2C art = false.
Proof.
  intros A. apply char_in_none. intros I.
  destruct (article_cases art A)
    as [(a & b & c & E & Ha & Hb & Hc) | [(a & E & Ha) | (a & b & E & Ha & Hb)]];
    subst art; cbn [In] in I;
    repeat (destruct I as [I | I]; [subst; vm_compute in *; discriminate |]);
    contradiction.
Qed.

Lemma article_match (name sp art : pystr) :
  char_in 0x0A name = false ->
  forallb isspace sp = true -> is_article art = true ->
  re_match trailing_article_re (name ++ [0x2C] ++ sp ++ art)
  = Some ([], [(2%nat, art); (1%nat, name)]).
Proof.
  intros NL SP A.
  unfold re_match, match_at, trailing_article_re, seq, star, lit_i. cbn [fold_right run].
  rewrite Nat.eqb_refl.
  match goal with |- rep_greedy _ _ _ ?k = _ => set (K := k) end.
  assert (forall y, clear_head (N.eqb 0x2C) y = true -> K y [] = None) as Kfail.
  { intros y H. subst K. destruct y as [| c y]; [reflexivity |]. cbn beta iota.
    rewrite lit_i_low by reflexivity. cbn [clear_head] in H.
    destruct (N.eqb_spec c 0x2C) as [E |]; [subst c; discriminate | reflexivity]. }
  apply rep_greedy_skip.
  { clear -NL. induction name as [| c name IH]; [reflexivity |].
    unfold char_in in *. cbn [existsb forallb] in *. unfold dot at 1.
    rewrite N.eqb_sym. destruct (0x0A =? c); [discriminate |]. exact (IH NL). }
  rewrite rep_greedy_at.
  - subst K. cbn beta iota. cbn [app]. rewrite lit_i_low by reflexivity. cbn [N.eqb Pos.eqb].
    rewrite rep_greedy_commit.
    + rewrite (lstrip_app_all isspace sp art SP), (lstrip_clear isspace art (article_head art A)).
      etransitivity;
        [exact (article_tail_match (length (name ++ [0x2C] ++ sp ++ art)) art _ A) |].
      do 4 f_equal. f_equal. exact (firstn_app_len name (0x2C :: sp ++ art)).
    + intros c s' P.
      exact (article_tail_space (length (name ++ [0x2C] ++ sp ++ art)) c s' _ P).
  - intros x y E N. apply Kfail.
    destruct x as [| a x]; [contradiction |]. cbn [app] in E. inversion E as [[Ea Ey]].
    destruct y as [| c y]; [reflexivity |]. cbn [clear_head].
    assert (In c (sp ++ art)) as I by (rewrite Ey; apply in_or_app; right; left; reflexivity).
    apply negb_true_iff, N.eqb_neq. intros F. subst c.
    apply in_app_or in I as [I | I].
    + rewrite forallb_forall in SP. specialize (SP _ I). discriminate.
    + apply char_in_In in I. rewrite (article_no_comma art A) in I. discriminate.
Qed.

(** X5. A name without line break (it may hold commas), followed by a
    comma, white space or none, and one of the articles "The", "A", "An" in
    any case, is turned round by [move_trailing_article]: the article as it
    is written, a space, the name, stripped of white space at the ends. *)
Theorem move_trailing_article_moves (name sp art : pystr) :
  char_in 0x0A name = false ->
  forallb isspace sp = true -> is_article art = true ->
  move_trailing_article (name ++ [0x2C] ++ sp ++ art) = strip (art ++ str " " ++ name).
Proof.
  intros NL SP A. unfold move_trailing_article.
  rewrite (article_match name sp art NL SP A). reflexivity.
Qed.

Lemma move_trailing_article_moves_witness :
  char_in 0x0A (str "Good, the Bad and the Ugly") = false
  /\ forallb isspace (str "  ") = true
  /\ is_article (str "tHE") = true
  /\ move_trailing_article (str "Good, the Bad and the Ugly,  tHE")
     = str "tHE Good, the Bad and the Ugly".
Proof.
  repeat (split; [reflexivity |]).
  exact (move_trailing_article_moves (str "Good, the Bad and the Ugly") (str "  ") (str "tHE")
           eq_refl eq_refl eq_refl).
Defined.

(** ** The first parenthesis *)

Lemma notc_forallb (c : char) (s : pystr) : forallb (notc c) s = negb (char_in c s).
Proof.
  unfold char_in, notc. induction s as [| x s IH]; [reflexivity |].
  cbn [forallb existsb]. rewrite IH, negb_orb, (N.eqb_sym c x). reflexivity.
Qed.

Lemma match_at_first_paren (n0 : nat) (s : pystr) :
  match_at n0 first_paren_re s
  = match s with
    | c :: d :: s2 =>
        if (0x28 =? c) && notc 0x29 d
        then match lstrip (notc 0x29) s2 with
             | _ :: rest =>
                 Some (rest, [(1%nat, firstn (length (d :: s2) - S (length rest)) (d :: s2))])
             | [] => None
             end
        else None
    | _ => None
    end.
Proof.
  unfold match_at, first_paren_re, seq, plus, lit, star. cbn [fold_right run].
  destruct s as [| c [| d s2]]; [reflexivity | destruct (0x28 =? c); reflexivity |].
  destruct (0x28 =? c); [| reflexivity]. cbn [andb].
  destruct (notc 0x29 d) eqn:D; [| reflexivity].
  rewrite rep_greedy_commit.
  - pose proof (lstrip_head (notc 0x29) s2) as H.
    destruct (lstrip (notc 0x29) s2) as [| e rest]; [reflexivity |].
    cbn [clear_head] in H. unfold notc in H. rewrite negb_involutive in H.
    rewrite N.eqb_sym, H. reflexivity.
  - intros x s' P. unfold notc in P. apply negb_true_iff in P.
    rewrite N.eqb_sym, P. reflexivity.
Qed.

Lemma search_from_found (n0 : nat) (r : regex) (s : pystr) (m : pystr * groups) :
  search_from n0 r s = Some m ->
  exists pre y, s = pre ++ y /\ match_at n0 r y = Some m.
Proof.
  induction s as [| c s IH]; cbn [search_from].
  - destruct (match_at n0 r []) eqn:E; [| discriminate].
    intros H. exists [], []. split; [reflexivity |]. rewrite E. exact H.
  - destruct (match_at n0 r (c :: s)) eqn:E.
    + intros H. exists [], (c :: s). split; [reflexivity |]. rewrite E. exact H.
    + cbn [orelse]. intros H. destruct (IH H) as (pre & y & S & M).
      exists (c :: pre), y. split; [rewrite S; reflexivity | exact M].
Qed.

Lemma search_from_skip (n0 : nat) (r : regex) (pre b : pystr) :
  (forall x c y, pre = x ++ c :: y -> match_at n0 r (c :: y ++ b) = None) ->
  search_from n0 r (pre ++ b) = search_from n0 r b.
Proof.
  induction pre as [| c pre IH]; intros H; [reflexivity |].
  cbn [app search_from]. rewrite (H [] c pre eq_refl). cbn [orelse].
  apply IH. intros x d y E. apply (H (c :: x) d y). rewrite E. reflexivity.
Qed.

Lemma search_first_paren (n0 : nat) (pre inner post : pystr) :
  char_in 0x28 pre = false -> inner <> [] -> char_in 0x29 inner = false ->
  search_from n0 first_paren_re (pre ++ [0x28] ++ inner ++ [0x29] ++ post)
  = Some (post, [(1%nat, inner)]).
Proof.
  intros P I C. rewrite search_from_skip.
  - destruct inner as [| d inner]; [contradiction |].
    cbn [app search_from]. rewrite match_at_first_paren.
    change (0x28 =? 0x28) with true. cbn [andb].
    assert (forallb (notc 0x29) (d :: inner) = true) as F
      by (rewrite notc_forallb, C; reflexivity).
    cbn [forallb] in F. apply andb_true_iff in F as [Fd Fi].
    rewrite Fd, (lstrip_app_all (notc 0x29) inner _ Fi). cbn [lstrip].
    change (notc 0x29 0x29) with false. cbn [orelse].
    do 4 f_equal.
    exact (firstn_app_len (d :: inner) (0x29 :: post)).
  - intros x c y E. rewrite match_at_first_paren. cbn [app].
    assert (In c pre) as J by (rewrite E; apply in_or_app; right; left; reflexivity).
    destruct (N.eqb_spec 0x28 c) as [F |].
    + subst c. apply char_in_In in J. rewrite P in J. discriminate.
    + destruct (y ++ _); reflexivity.
Qed.

Lemma search_first_paren_shape (n0 : nat) (s rest : pystr) (g : groups) :
  search_from n0 first_paren_re s = Some (rest, g) ->
  exists pre inner,
    s = pre ++ [0x28] ++ inner ++ [0x29] ++ rest
    /\ inner <> [] /\ char_in 0x29 inner = false /\ g = [(1%nat, inner)].
Proof.
  intros H. destruct (search_from_found _ _ _ _ H) as (pre & y & E & M).
  rewrite match_at_first_paren in M.
  destruct y as [| c [| d s2]]; try discriminate.
  destruct (N.eqb_spec 0x28 c) as [C |]; [| discriminate]. subst c. cbn [andb] in M.
  destruct (notc 0x29 d) eqn:D; [| discriminate].
  destruct (lstrip_split (notc 0x29) s2) as (l & S2 & L).
  pose proof (lstrip_head (notc 0x29) s2) as Hd.
  destruct (lstrip (notc 0x29) s2) as [| e r]; [discriminate |].
  cbn [clear_head] in Hd. unfold notc in Hd. rewrite negb_involutive in Hd.
  apply N.eqb_eq in Hd. subst e.
  inversion M as [[Er Eg]]. subst r.
  exists pre, (d :: l). repeat split.
  - rewrite E, S2. reflexivity.
  - discriminate.
  - apply negb_true_iff. rewrite <- notc_forallb. cbn [forallb]. rewrite D, L. reflexivity.
  - do 3 f_equal. rewrite S2 at 1 2.
    exact (firstn_app_len (d :: l) (0x29 :: rest)).
Qed.

(** X6. [extract_parenthetical_alternate] reads the first parenthesis that
    is not empty: when no "(" comes before it, the group is cut at the first
    ")" after it, stripped of white space, and returned if it has at most 30
    characters and no comma; otherwise the result is [None], and later
    parentheses are not looked at. *)
Theorem extract_parenthetical_alternate_first (pre inner post : pystr) :
  char_in 0x28 pre = false -> inner <> [] -> char_in 0x29 inner = false ->
  extract_parenthetical_alternate (pre ++ [0x28] ++ inner ++ [0x29] ++ post)
  = if (length (strip inner) <=? 30)%nat && negb (char_in 0x2C (strip inner))
    then Some (strip inner) else None.
Proof.
  intros P I C. unfold extract_parenthetical_alternate, re_search.
  rewrite (search_first_paren _ pre inner post P I C). reflexivity.
Qed.

Lemma extract_parenthetical_alternate_first_witness :
  char_in 0x28 (str "City of Lost Children, The ") = false
  /\ str "Cite des enfants perdus, La" <> []
  /\ char_in 0x29 (str "Cite des enfants perdus, La") = false
  /\ extract_parenthetical_alternate
       (str "City of Lost Children, The (Cite des enfants perdus, La) (Lost)")
     = None.
Proof.
  split; [reflexivity |]. split; [discriminate |]. split; [reflexivity |].
  exact (extract_parenthetical_alternate_first (str "City of Lost Children, The ")
           (str "Cite des enfants perdus, La") (str " (Lost)")
           eq_refl ltac:(discriminate) eq_refl).
Defined.

(** X7. What [extract_parenthetical_alternate] returns is the stripped
    text of a parenthesis of its argument that holds at least one character
    and no ")"; it has at most 30 characters, no comma, and no white space
    at either end. It may be the empty string. *)
Theorem extract_parenthetical_alternate_sound (t a : pystr) :
  extract_parenthetical_alternate t = Some a ->
  (exists pre inner post,
     t = pre ++ [0x28] ++ inner ++ [0x29] ++ post
     /\ inner <> [] /\ char_in 0x29 inner = false /\ a = strip inner)
  /\ (length a <= 30)%nat /\ char_in 0x2C a = false /\ strip a = a.
Proof.
  unfold extract_parenthetical_alternate, re_search.
  destruct (search_from (length t) first_paren_re t) as [[rest g] |] eqn:S; [| discriminate].
  destruct (search_first_paren_shape _ _ _ _ S) as (pre & inner & E & I & C & G).
  subst g. cbn [group Nat.eqb].
  destruct (length (strip inner) <=? 30)%nat eqn:L; [| discriminate]. cbn [andb].
  destruct (char_in 0x2C (strip inner)) eqn:K; [discriminate |]. cbn [negb].
  intros H. inversion H. subst a. split; [| split; [| split]].
  - exists pre, inner, rest. auto.
  - apply Nat.leb_le. exact L.
  - exact K.
  - destruct (strip_by_ends isspace inner) as [A B]. apply strip_by_fixed; assumption.
Qed.

Lemma extract_parenthetical_alternate_sound_witness :
  extract_parenthetical_alternate (str "Seven (a.k.a. Se7en ) (1995)") = Some (str "a.k.a. Se7en")
  /\ (exists pre inner post,
        str "Seven (a.k.a. Se7en ) (1995)" = pre ++ [0x28] ++ inner ++ [0x29] ++ post
        /\ inner <> [] /\ char_in 0x29 inner = false /\ str "a.k.a. Se7en" = strip inner)
  /\ (length (str "a.k.a. Se7en") <= 30)%nat
  /\ char_in 0x2C (str "a.k.a. Se7en") = false
  /\ strip (str "a.k.a. Se7en") = str "a.k.a. Se7en".
Proof.
  split; [reflexivity |].
  exact (extract_parenthetical_alternate_sound (str "Seven (a.k.a. Se7en ) (1995)")
           (str "a.k.a. Se7en") eq_refl).
Defined.

Lemma search_from_none (n0 : nat) (r : regex) (s : pystr) :
  (forall x y, s = x ++ y -> match_at n0 r y = None) -> search_from n0 r s = None.
Proof.
  induction s as [| c s IH]; intros H; cbn [search_from].
  - rewrite (H [] [] eq_refl). reflexivity.
  - rewrite (H [] (c :: s) eq_refl). cbn [orelse].
    apply IH. intros x y E. apply (H (c :: x) y). rewrite E. reflexivity.
Qed.

(** X8. A string without "(" or without ")" has no parenthetical
    alternate. *)
Theorem extract_parenthetical_alternate_none (t : pystr) :
  char_in 0x28 t && char_in 0x29 t = false -> extract_parenthetical_alternate t = None.
Proof.
  intros H. unfold extract_parenthetical_alternate, re_search.
  destruct (search_from (length t) first_paren_re t) as [[rest g] |] eqn:S; [| reflexivity].
  destruct (search_first_paren_shape _ _ _ _ S) as [pre [inner [E _]]].
  assert (In 0x28 t) as A by (rewrite E; apply in_or_app; right; left; reflexivity).
  assert (In 0x29 t) as B by (rewrite E, !in_app_iff; cbn [In]; tauto).
  apply char_in_In in A, B. rewrite A, B in H. discriminate.
Qed.

Lemma extract_parenthetical_alternate_none_witness :
  char_in 0x28 (str "Heat :) ") && char_in 0x29 (str "Heat :) ") = false
  /\ extract_parenthetical_alternate (str "Heat :) ") = None.
Proof.
  split; [reflexivity |].
  exact (extract_parenthetical_alternate_none (str "Heat :) ") eq_refl).
Defined.

Lemma rep_greedy_found (p : char -> bool) (s : pystr) (g : groups) (k : cont)
    (m : pystr * groups) :
  rep_greedy p s g k = Some m ->
  exists a b, s = a ++ b /\ forallb p a = true /\ k b g = Some m.
Proof.
  induction s as [| c s IH]; cbn [rep_greedy].
  - intros H. exists [], []. auto.
  - destruct (p c) eqn:P.
    + destruct (rep_greedy p s g k) as [m' |] eqn:R; cbn [orelse].
      * intros H. destruct (IH H) as (a & b & E & F & K).
        exists (c :: a), b. cbn [forallb]. rewrite P, E. auto.
      * intros H. exists [], (c :: s). auto.
    + intros H. exists [], (c :: s). auto.
Qed.

Lemma article_found (n0 : nat) (s : pystr) (g : groups) (k : cont) (m : pystr * groups) :
  run n0 (alts (word_i (str "The")) [word_i (str "A"); word_i (str "An")]) s g k = Some m ->
  exists art rest, s = art ++ rest /\ is_article art = true /\ k rest g = Some m.
Proof.
  cbn.
  destruct s as [| a s]; [discriminate |].
  destruct (N.eqb_spec (sre_lower a) 116) as [A |].
  - cbn [orb]. destruct s as [| b s]; [rewrite A; discriminate |].
    destruct (N.eqb_spec (sre_lower b) 104) as [B |]; [| rewrite A; discriminate].
    cbn [orb]. destruct s as [| c s]; [rewrite A; discriminate |].
    destruct (N.eqb_spec (sre_lower c) 101) as [C |]; [| rewrite A; discriminate].
    cbn [orb]. rewrite A. cbn.
    destruct (k s g) eqn:K; [| discriminate]. intros H.
    exists [a; b; c], s. repeat split; [| rewrite K; exact H].
    unfold is_article. cbn. rewrite A, B, C. reflexivity.
  - cbn [orb orelse]. destruct (N.eqb_spec (sre_lower a) 97) as [A |]; [| discriminate].
    cbn [orb]. destruct (k s g) eqn:K; cbn [orelse].
    + intros H. exists [a], s. repeat split; [| rewrite K; exact H].
      unfold is_article. cbn. rewrite A. reflexivity.
    + destruct s as [| b s]; [discriminate |].
      destruct (N.eqb_spec (sre_lower b) 110) as [B |]; [| discriminate].
      cbn [orb]. intros H. exists [a; b], s. repeat split; [| exact H].
      unfold is_article. cbn. rewrite A, B. reflexivity.
Qed.

Lemma article_match_shape (t rest : pystr) (g : groups) :
  re_match trailing_article_re t = Some (rest, g) ->
  exists name sp art,
    t = name ++ [0x2C] ++ sp ++ art ++ rest
    /\ forallb isspace sp = true /\ is_article art = true
    /\ (rest = [] \/ rest = [0x0A])
    /\ g = [(2%nat, art); (1%nat, name)].
Proof.
  unfold re_match, match_at, trailing_article_re, seq, star, lit_i. cbn [fold_right run].
  rewrite Nat.eqb_refl. intros H.
  apply rep_greedy_found in H as (name & b & E & _ & H).
  destruct b as [| c s1]; [discriminate |]. cbn beta iota in H.
  rewrite lit_i_low in H by reflexivity.
  destruct (N.eqb_spec c 0x2C) as [C |]; [subst c | discriminate].
  apply rep_greedy_found in H as (sp & b2 & E1 & SP & H).
  apply article_found in H as (art & r & E2 & A & H).
  assert (r = rest /\ (rest = [] \/ rest = [0x0A])
          /\ g = [(2%nat, firstn (length b2 - length r) b2);
                  (1%nat, firstn (length t - length (0x2C :: s1)) t)]) as (Er & R & G).
  { destruct r as [| c [| d r]].
    - inversion H. auto.
    - destruct (N.eqb_spec c 0x0A); [| discriminate]. subst c. inversion H. auto.
    - discriminate. }
  subst r. exists name, sp, art. repeat split; try assumption.
  - rewrite E, E1, E2. reflexivity.
  - rewrite G. f_equal; [| f_equal]; f_equal.
    + rewrite E2. exact (firstn_app_len art rest).
    + rewrite E. exact (firstn_app_len name (0x2C :: s1)).
Qed.

(** X9. [move_trailing_article] either returns its argument or has found a
    comma, white space or none, an article "The", "A" or "An" in any case
    and the end of the text (a final line break allowed); it then returns
    the article, a space and what was before the comma, stripped. *)
Theorem move_trailing_article_cases (t : pystr) :
  move_trailing_article t = t
  \/ exists name sp art nl,
       t = name ++ [0x2C] ++ sp ++ art ++ nl
       /\ forallb isspace sp = true /\ is_article art = true
       /\ (nl = [] \/ nl = [0x0A])
       /\ move_trailing_article t = strip (art ++ str " " ++ name).
Proof.
  unfold move_trailing_article.
  destruct (re_match trailing_article_re t) as [[rest g] |] eqn:M; [| left; reflexivity].
  destruct (article_match_shape t rest g M) as (name & sp & art & E & SP & A & R & G).
  right. exists name, sp, art, rest. subst g. cbn [group Nat.eqb]. auto.
Qed.

(** ** Normal forms of the variants *)

Lemma str_in_In (x : pystr) (l : list pystr) : str_in x l = true <-> In x l.
Proof.
  unfold str_in. rewrite existsb_exists. split.
  - intros (y & I & E). apply pystr_eqb_eq in E. subst. exact I.
  - intros I. exists x. split; [exact I | apply pystr_eqb_eq; reflexivity].
Qed.

Lemma nonempty_true (s : pystr) : nonempty s = true <-> s <> [].
Proof. destruct s; cbn; split; congruence. Qed.

Lemma tidy_whitespace_twice (s : pystr) : tidy_whitespace (tidy_whitespace s) = tidy_whitespace s.
Proof. destruct (tidy_whitespace_shape s) as (N & L & R). apply tidy_whitespace_fixed; assumption. Qed.

Lemma tidy_fixed_shape (s : pystr) :
  tidy_whitespace s = s ->
  neat s = true /\ lstrip isspace s = s /\ rstrip isspace s = s.
Proof. intros E. rewrite <- E. apply tidy_whitespace_shape. Qed.

Lemma neat_app_l (a b : pystr) : neat (a ++ b) = true -> neat a = true.
Proof.
  induction a as [| c a IH]; [reflexivity |]. cbn [app neat].
  intros N. apply andb_prop in N as [C N]. rewrite (IH N), andb_true_r.
  destruct (isspace c); [| reflexivity].
  apply andb_prop in C as [C1 C2]. rewrite C1.
  destruct a as [| d a]; [reflexivity | exact C2].
Qed.

Lemma neat_app_r (a b : pystr) : neat (a ++ b) = true -> neat b = true.
Proof.
  induction a as [| c a IH]; [auto |]. cbn [app neat].
  intros N. apply andb_prop in N as [_ N]. exact (IH N).
Qed.

Lemma neat_app (a b : pystr) :
  neat a = true -> neat b = true -> clear_head isspace b = true -> neat (a ++ b) = true.
Proof.
  intros A B H. induction a as [| c a IH]; [exact B |]. cbn [app neat] in *.
  apply andb_prop in A as [C A]. rewrite (IH A), andb_true_r.
  destruct (isspace c); [| reflexivity].
  apply andb_prop in C as [C1 C2]. rewrite C1.
  destruct a as [| d a]; [| exact C2]. cbn [app andb].
  destruct b as [| d b]; [reflexivity | exact H].
Qed.

Lemma strip_neat_fixed (s : pystr) : neat s = true -> tidy_whitespace (strip s) = strip s.
Proof.
  intros N. destruct (strip_by_ends isspace s) as [L R]. apply tidy_whitespace_fixed.
  - unfold strip, strip_by. apply neat_rstrip, neat_lstrip, N.
  - exact L.
  - exact R.
Qed.

Lemma article_space_neat (art : pystr) :
  is_article art = true -> neat (art ++ str " ") = true.
Proof.
  intros A.
  destruct (article_cases art A)
    as [(a & b & c & E & Ha & Hb & Hc) | [(a & E & Ha) | (a & b & E & Ha & Hb)]];
    subst art; cbn [app str neat];
    repeat match goal with
    | H : sre_lower ?x = _ |- _ =>
        rewrite (lower_not_space x _ H eq_refl); clear H
    end; reflexivity.
Qed.

Lemma base_clean_tidy (U : unicodedata) (title : pystr) :
  tidy_whitespace (base_clean U title) = base_clean U title.
Proof. apply tidy_whitespace_twice. Qed.

Lemma removed_tidy (t : pystr) :
  tidy_whitespace (remove_parenthetical_alternates t) = remove_parenthetical_alternates t.
Proof. apply tidy_whitespace_twice. Qed.

Lemma alternate_tidy (t a : pystr) :
  neat t = true -> extract_parenthetical_alternate t = Some a -> tidy_whitespace a = a.
Proof.
  intros N. unfold extract_parenthetical_alternate, re_search.
  destruct (search_from (length t) first_paren_re t) as [[rest g] |] eqn:S; [| discriminate].
  destruct (search_first_paren_shape _ _ _ _ S) as (pre & inner & E & I & C & G).
  subst g. cbn [group Nat.eqb].
  destruct ((length (strip inner) <=? 30)%nat && negb (char_in 0x2C (strip inner)));
    [| discriminate].
  intros H. inversion H. apply strip_neat_fixed.
  rewrite E in N. apply neat_app_r in N. cbn [app] in N.
  change (0x28 :: inner ++ 0x29 :: rest) with ([0x28] ++ inner ++ 0x29 :: rest) in N.
  apply neat_app_r, neat_app_l in N. exact N.
Qed.

Lemma moved_shape (t : pystr) :
  tidy_whitespace t = t -> t <> [] ->
  tidy_whitespace (move_trailing_article t) = move_trailing_article t
  /\ move_trailing_article t <> [].
Proof.
  intros T NE. unfold move_trailing_article.
  destruct (re_match trailing_article_re t) as [[rest g] |] eqn:M; [| auto].
  destruct (article_match_shape t rest g M) as (name & sp & art & E & SP & A & R & G).
  subst g. cbn [group Nat.eqb].
  destruct (tidy_fixed_shape t T) as (N & L & _).
  assert (neat (art ++ str " " ++ name) = true) as N'.
  { rewrite app_assoc. apply neat_app.
    - apply article_space_neat, A.
    - rewrite E in N. apply neat_app_l in N. exact N.
    - destruct name as [| c name]; [reflexivity |].
      apply clear_head_fixed in L. rewrite E in L. exact L. }
  split; [apply strip_neat_fixed, N' |].
  pose proof (article_head art A) as H.
  destruct art as [| a art]; [discriminate |]. cbn [clear_head] in H.
  apply negb_true_iff in H.
  unfold strip, strip_by. cbn [app lstrip]. rewrite H, rstrip_cons. cbn [forallb].
  rewrite H. discriminate.
Qed.

(** ** The loops *)

Lemma add_candidate_keeps (candidates : list pystr) (x : option pystr) (c : pystr) :
  In c candidates -> In c (add_candidate candidates x).
Proof.
  intros I. unfold add_candidate. destruct x as [x |]; [| exact I].
  destruct (nonempty x && negb (str_in x candidates)); [| exact I].
  apply in_or_app. left. exact I.
Qed.

Lemma add_candidate_adds (candidates : list pystr) (x : pystr) :
  x <> [] -> In x (add_candidate candidates (Some x)).
Proof.
  intros NE. unfold add_candidate. rewrite (proj2 (nonempty_true x) NE). cbn [andb].
  destruct (str_in x candidates) eqn:S; cbn [negb].
  - apply str_in_In, S.
  - apply in_or_app. right. left. reflexivity.
Qed.

Lemma first_loop_keeps (ts : list (option pystr)) (candidates : list pystr) (c : pystr) :
  In c candidates -> In c (fold_left add_candidate ts candidates).
Proof.
  revert candidates. induction ts as [| x ts IH]; intros candidates I; [exact I |].
  cbn [fold_left]. apply IH, add_candidate_keeps, I.
Qed.

Lemma first_loop_adds (ts : list (option pystr)) (candidates : list pystr) (x : pystr) :
  x <> [] -> In (Some x) ts -> In x (fold_left add_candidate ts candidates).
Proof.
  intros NE. revert candidates. induction ts as [| y ts IH]; intros candidates I; [contradiction |].
  cbn [fold_left]. destruct I as [E | I]; [| apply IH, I].
  subst y. apply first_loop_keeps, add_candidate_adds, NE.
Qed.

Lemma first_loop_from (ts : list (option pystr)) (candidates : list pystr) (c : pystr) :
  In c (fold_left add_candidate ts candidates) -> In c candidates \/ In (Some c) ts.
Proof.
  revert candidates. induction ts as [| x ts IH]; intros candidates I; [left; exact I |].
  cbn [fold_left] in I. destruct (IH _ I) as [J | J]; [| right; right; exact J].
  unfold add_candidate in J. destruct x as [x |]; [| left; exact J].
  destruct (nonempty x && negb (str_in x candidates)); [| left; exact J].
  apply in_app_or in J as [J | [J | []]]; [left; exact J | right; left; subst; reflexivity].
Qed.

Lemma first_loop_distinct (ts : list (option pystr)) (candidates : list pystr) :
  NoDup candidates -> ~ In [] candidates ->
  NoDup (fold_left add_candidate ts candidates)
  /\ ~ In [] (fold_left add_candidate ts candidates).
Proof.
  revert candidates. induction ts as [| x ts IH]; intros candidates D NE; [auto |].
  cbn [fold_left]. apply IH; unfold add_candidate; destruct x as [x |]; try assumption;
    destruct (nonempty x) eqn:X; cbn [andb]; try assumption;
    destruct (str_in x candidates) eqn:S; cbn [negb]; try assumption.
  - apply NoDup_app; [exact D | repeat constructor; intros [] | ].
    intros y I [J | []]. subst y. apply str_in_In in I. congruence.
  - intros I. apply in_app_or in I as [I | [I | []]]; [exact (NE I) |].
    subst x. discriminate.
Qed.

Lemma first_loop_head (ts : list (option pystr)) (c : pystr) (l : list pystr) :
  exists r, fold_left add_candidate ts (c :: l) = c :: r.
Proof.
  revert l. induction ts as [| x ts IH]; intros l; [exists l; reflexivity |].
  cbn [fold_left]. unfold add_candidate. destruct x as [x |]; [| apply IH].
  destruct (nonempty x && negb (str_in x (c :: l))); [| apply IH].
  cbn [app]. apply IH.
Qed.

Lemma first_loop_first (ts : list (option pystr)) (x : pystr) :
  x <> [] -> exists r, fold_left add_candidate (Some x :: ts) [] = x :: r.
Proof.
  intros NE. cbn [fold_left]. unfold add_candidate at 2.
  rewrite (proj2 (nonempty_true x) NE). cbn [str_in existsb negb andb app].
  apply first_loop_head.
Qed.

Section SecondLoop.

Variable U : unicodedata.

Lemma add_translit_keeps (candidates : list pystr) (x c : pystr) :
  In c candidates -> In c (add_translit U candidates x).
Proof.
  intros I. unfold add_translit.
  destruct (negb (pystr_eqb (strip_marks U x) x) && negb (str_in (strip_marks U x) candidates));
    [| exact I].
  apply in_or_app. left. exact I.
Qed.

Lemma second_loop_keeps (copy candidates : list pystr) (c : pystr) :
  In c candidates -> In c (fold_left (add_translit U) copy candidates).
Proof.
  revert candidates. induction copy as [| x copy IH]; intros candidates I; [exact I |].
  cbn [fold_left]. apply IH, add_translit_keeps, I.
Qed.

Lemma second_loop_head (copy : list pystr) (c : pystr) (l : list pystr) :
  exists r, fold_left (add_translit U) copy (c :: l) = c :: r.
Proof.
  revert l. induction copy as [| x copy IH]; intros l; [exists l; reflexivity |].
  cbn [fold_left]. unfold add_translit.
  destruct (negb (pystr_eqb (strip_marks U x) x) && negb (str_in (strip_marks U x) (c :: l)));
    [| apply IH].
  cbn [app]. apply IH.
Qed.

Lemma second_loop_fixed (copy candidates : list pystr) :
  (forall c, In c copy -> strip_marks U c = c) ->
  fold_left (add_translit U) copy candidates = candidates.
Proof.
  revert candidates. induction copy as [| x copy IH]; intros candidates F; [reflexivity |].
  cbn [fold_left]. unfold add_translit at 2. rewrite (F x (or_introl eq_refl)).
  rewrite (proj2 (pystr_eqb_eq x x) eq_refl). cbn [negb andb].
  apply IH. intros c I. apply F. right. exact I.
Qed.

Lemma generate_unfold (title : pystr) :
  base_clean U title <> [] ->
  generate_title_candidates U title
  = map tidy_whitespace
      (filter nonempty
         (fold_left (add_translit U) (fold_left add_candidate (variants (base_clean U title)) [])
            (fold_left add_candidate (variants (base_clean U title)) []))).
Proof.
  intros NE. unfold generate_title_candidates.
  rewrite (proj2 (nonempty_true _) NE). reflexivity.
Qed.

(** X10. The candidate list is empty exactly when the cleaned title is; when
    it is not, the cleaned title itself is one of the candidates, and the
    first candidate, the one looked up first, is the cleaned title with its
    trailing article moved to the front. Every candidate is in normal form:
    [tidy_whitespace] leaves it unchanged. *)
Theorem candidates_base (title : pystr) :
  (generate_title_candidates U title = [] <-> base_clean U title = [])
  /\ (base_clean U title <> [] ->
      In (base_clean U title) (generate_title_candidates U title)
      /\ hd_error (generate_title_candidates U title)
         = Some (move_trailing_article (base_clean U title)))
  /\ (forall c, In c (generate_title_candidates U title) -> tidy_whitespace c = c).
Proof.
  assert (base_clean U title <> [] ->
          In (base_clean U title) (generate_title_candidates U title)
          /\ hd_error (generate_title_candidates U title)
             = Some (move_trailing_article (base_clean U title))) as B.
  { intros NE. rewrite (generate_unfold title NE). split.
    - rewrite <- (base_clean_tidy U title) at 1. apply in_map, filter_In.
      split; [| apply nonempty_true, NE].
      apply second_loop_keeps, first_loop_adds; [exact NE |].
      unfold variants. cbn [In]. auto.
    - destruct (moved_shape (base_clean U title) (base_clean_tidy U title) NE) as [T M].
      destruct (first_loop_first
                  [Some (remove_parenthetical_alternates (base_clean U title));
                   extract_parenthetical_alternate (base_clean U title);
                   Some (base_clean U title)]
                  (move_trailing_article (base_clean U title)) M) as (r & E).
      unfold variants. rewrite E.
      destruct (second_loop_head (move_trailing_article (base_clean U title) :: r)
                  (move_trailing_article (base_clean U title)) r) as (r' & E').
      rewrite E'. cbn [filter]. rewrite (proj2 (nonempty_true _) M).
      cbn [map hd_error]. rewrite T. reflexivity. }
  split; [| split; [exact B |]].
  - split.
    + intros E. destruct (base_clean U title) as [| c b] eqn:Eb; [reflexivity |].
      destruct B as [I _]; [discriminate |]. rewrite E in I. contradiction.
    + intros E. unfold generate_title_candidates. rewrite E. reflexivity.
  - intros c I. unfold generate_title_candidates in I.
    destruct (negb (nonempty (base_clean U title))); [contradiction |].
    apply in_map_iff in I as (x & E & _). subst c. apply tidy_whitespace_twice.
Qed.

(** What the transforms write is taken from their argument, but for the
    spaces they put in. *)
Lemma sub_loop_incl (n0 : nat) (r : regex) (repl : pystr) (skip : nat) (s : pystr) :
  incl (sub_loop n0 r repl skip s) (repl ++ s).
Proof.
  revert skip. induction s as [| c s IH]; intros skip; cbn [sub_loop].
  - destruct (match_at n0 r []); [apply incl_appl, incl_refl | apply incl_nil_l].
  - assert (incl (repl ++ s) (repl ++ c :: s)) as W.
    { apply incl_app; [apply incl_appl, incl_refl | apply incl_appr, incl_tl, incl_refl]. }
    destruct skip as [| n]; [| exact (incl_tran (IH n) W)].
    destruct (match_at n0 r (c :: s)) as [[rest g] |].
    + destruct (length (c :: s) - length rest)%nat.
      * apply incl_app; [apply incl_appl, incl_refl |].
        apply incl_cons; [apply in_or_app; right; left; reflexivity |].
        exact (incl_tran (IH 0%nat) W).
      * apply incl_app; [apply incl_appl, incl_refl | exact (incl_tran (IH n) W)].
    + apply incl_cons; [apply in_or_app; right; left; reflexivity |].
      exact (incl_tran (IH 0%nat) W).
Qed.

Lemma re_sub_incl (r : regex) (repl s : pystr) : incl (re_sub r repl s) (repl ++ s).
Proof. apply sub_loop_incl. Qed.

Lemma tidy_whitespace_incl (s : pystr) : incl (tidy_whitespace s) (0x20 :: s).
Proof.
  unfold tidy_whitespace, strip.
  exact (incl_tran (incl_strip_by isspace _) (re_sub_incl (plus isspace) (str " ") s)).
Qed.

Lemma incl_spaced (a b : pystr) : incl a (0x20 :: b) -> incl (0x20 :: a) (0x20 :: b).
Proof. intros I. apply incl_cons; [left; reflexivity | exact I]. Qed.

Lemma base_clean_incl (title : pystr) : incl (base_clean U title) (0x20 :: title).
Proof.
  unfold base_clean. eapply incl_tran; [apply tidy_whitespace_incl |].
  apply incl_spaced, incl_tl. unfold strip_chars, strip.
  eapply incl_tran; [apply incl_strip_by |].
  eapply incl_tran; [apply incl_strip_by |].
  exact (re_sub_incl (trailing_year_re U) [] title).
Qed.

Lemma removed_incl (t : pystr) : incl (remove_parenthetical_alternates t) (0x20 :: t).
Proof.
  unfold remove_parenthetical_alternates. eapply incl_tran; [apply tidy_whitespace_incl |].
  apply incl_spaced.
  eapply incl_tran; [exact (re_sub_incl any_paren_re (str " ") _) |]. apply incl_spaced.
  exact (re_sub_incl marked_paren_re (str " ") t).
Qed.

Lemma moved_incl (t : pystr) : incl (move_trailing_article t) (0x20 :: t).
Proof.
  unfold move_trailing_article.
  destruct (re_match trailing_article_re t) as [[rest g] |] eqn:M; [| apply incl_tl, incl_refl].
  destruct (article_match_shape t rest g M) as (name & sp & art & E & SP & A & R & G).
  subst g. cbn [group Nat.eqb]. unfold strip.
  eapply incl_tran; [apply incl_strip_by |].
  intros c I. rewrite E. cbn [In]. rewrite !in_app_iff in *. cbn [In str map list_ascii_of_string] in *.
  change (N_of_ascii " ") with 0x20 in I. tauto.
Qed.

Lemma alternate_incl (t a : pystr) :
  extract_parenthetical_alternate t = Some a -> incl a t.
Proof.
  unfold extract_parenthetical_alternate, re_search.
  destruct (search_from (length t) first_paren_re t) as [[rest g] |] eqn:S; [| discriminate].
  destruct (search_first_paren_shape _ _ _ _ S) as (pre & inner & E & I & C & G).
  subst g. cbn [group Nat.eqb].
  destruct ((length (strip inner) <=? 30)%nat && negb (char_in 0x2C (strip inner)));
    [| discriminate].
  intros H. inversion H. unfold strip. eapply incl_tran; [apply incl_strip_by |].
  intros c J. rewrite E, !in_app_iff. tauto.
Qed.

Lemma variant_shape (base c : pystr) :
  tidy_whitespace base = base -> base <> [] -> In (Some c) (variants base) ->
  tidy_whitespace c = c /\ incl c (0x20 :: base).
Proof.
  intros T NE I. unfold variants in I. cbn [In] in I.
  destruct I as [E | [E | [E | [E | []]]]].
  - inversion E. split; [apply (moved_shape base T NE) | apply moved_incl].
  - inversion E. split; [apply removed_tidy | apply removed_incl].
  - split; [| apply incl_tl, (alternate_incl base c E)].
    apply (alternate_tidy base c); [apply (tidy_fixed_shape base T) | exact E].
  - inversion E. subst c. split; [exact T | apply incl_tl, incl_refl].
Qed.

(** X11. For a title all of whose characters Unicode leaves alone, as it does
    the space (ASCII titles are such), the candidates are what the first
    loop collects: each is one of the four variants of the cleaned title,
    none is empty and none comes twice. *)
Theorem candidates_unmarked (title : pystr) :
  Forall (unmarked U) (0x20 :: title) ->
  generate_title_candidates U title
  = (if nonempty (base_clean U title)
     then fold_left add_candidate (variants (base_clean U title)) [] else [])
  /\ NoDup (generate_title_candidates U title)
  /\ ~ In [] (generate_title_candidates U title)
  /\ (forall c, In c (generate_title_candidates U title) ->
                In (Some c) (variants (base_clean U title))).
Proof.
  intros F.
  destruct (nonempty (base_clean U title)) eqn:NB.
  2: { unfold generate_title_candidates. rewrite NB. cbn [negb].
       repeat split; [constructor | intros [] | intros c []]. }
  assert (base_clean U title <> []) as NE by (apply nonempty_true, NB).
  rewrite (generate_unfold title NE).
  set (L := fold_left add_candidate (variants (base_clean U title)) []).
  destruct (first_loop_distinct (variants (base_clean U title)) [] (NoDup_nil _) (fun x => x))
    as [D N]. fold L in D, N.
  assert (forall c, In c L -> In (Some c) (variants (base_clean U title))) as V.
  { intros c I. destruct (first_loop_from _ _ _ I) as [[] | J]. exact J. }
  assert (forall c, In c L -> strip_marks U c = c) as M.
  { intros c I.
    destruct (variant_shape _ c (base_clean_tidy U title) NE (V c I)) as [_ J].
    assert (incl c (0x20 :: title)) as K.
    { eapply incl_tran; [exact J |]. apply incl_spaced, base_clean_incl. }
    rewrite Forall_forall in F.
    apply strip_marks_fixed; apply Forall_forall; intros x X; apply (F x (K x X)). }
  rewrite (second_loop_fixed L L M).
  assert (filter nonempty L = L) as FL.
  { apply forallb_filter_id, forallb_forall. intros c I. apply nonempty_true.
    intros E. subst c. exact (N I). }
  assert (map tidy_whitespace L = L) as ML.
  { rewrite <- (map_id L) at 2. apply map_ext_in. intros c I.
    apply (variant_shape _ c (base_clean_tidy U title) NE (V c I)). }
  rewrite FL, ML. repeat split; assumption.
Qed.

End SecondLoop.

Section ResolverMore.

Variable float_of_str : pystr -> option float.
Variable int_of_str : pystr -> option Z.
Variable World : Type.
Variable http_get : request -> World -> reply * World.

Lemma or_else_truthy (v d : value) : truthy d = true -> truthy (or_else v d) = true.
Proof. intros D. unfold or_else. destruct (truthy v) eqn:V; [exact V | exact D]. Qed.

Lemma record_of_fields (d : list (pystr * value)) (r : EnrichmentRecord) :
  record_of float_of_str d = inr r ->
  truthy (plot r) = true /\ truthy (director r) = true
  /\ imdb_id r = dict_get d (str "imdbID")
  /\ box_office r = dict_get d (str "BoxOffice")
  /\ runtime r = dict_get d (str "Runtime").
Proof.
  unfold record_of.
  destruct (rating_of float_of_str (dict_get d (str "imdbRating"))); [discriminate |].
  intros E. inversion E. cbn. repeat split; apply or_else_truthy; reflexivity.
Qed.

(** How a run that does not fall through ends: on the year, before any
    call, or on its last call. *)
Lemma run_end (cs : list pystr) (year : value) (w : World) :
  outcome (for_candidates float_of_str int_of_str http_get cs year w) <> Next ->
  (exists e,
      year_param int_of_str year = inl e /\ cs <> []
      /\ calls (for_candidates float_of_str int_of_str http_get cs year w) = []
      /\ outcome (for_candidates float_of_str int_of_str http_get cs year w) = Raise e)
  \/ (exists tr0 c,
        calls (for_candidates float_of_str int_of_str http_get cs year w) = tr0 ++ [c]
        /\ Forall (quiet float_of_str) tr0
        /\ outcome (for_candidates float_of_str int_of_str http_get cs year w)
           = reply_flow float_of_str c).
Proof.
  intros N. destruct (year_param int_of_str year) as [e | yo] eqn:Y.
  - left. exists e. destruct (for_candidates_bad_year float_of_str int_of_str World http_get
                                cs year e w Y) as [C O].
    destruct cs as [| c cs]; [rewrite O in N; contradiction |].
    repeat split; [discriminate | exact C | exact O].
  - right.
    destruct (for_candidates_shape float_of_str int_of_str World http_get cs year yo w Y)
      as [[O _] | (tr0 & c & T & Q & O & _)]; [contradiction |].
    exists tr0, c. auto.
Qed.

(** X12. A record the resolver returns always has a plot and a director that
    are not None, not empty and not otherwise false: they are the payload's
    when those are true values, the defaults "Not Available" and "Unknown"
    otherwise. The identifier, the box office and the run time are passed on
    as the payload gives them, and may be None. *)
Theorem fetch_record_fields (cands : list pystr) (year : value) (w : World)
    (r : EnrichmentRecord) :
  outcome (fetch_omdb_data float_of_str int_of_str http_get cands year w) = inr r ->
  truthy (plot r) = true /\ truthy (director r) = true
  /\ (r = default
      \/ exists tr0 rq d,
           calls (fetch_omdb_data float_of_str int_of_str http_get cands year w)
           = tr0 ++ [(rq, Json (VDict d))]
           /\ plot r = or_else (dict_get d (str "Plot")) (VStr (str "Not Available"))
           /\ director r = or_else (dict_get d (str "Director")) (VStr (str "Unknown"))
           /\ imdb_id r = dict_get d (str "imdbID")
           /\ box_office r = dict_get d (str "BoxOffice")
           /\ runtime r = dict_get d (str "Runtime")).
Proof.
  rewrite fetch_outcome, fetch_calls.
  destruct (outcome (for_candidates float_of_str int_of_str http_get cands year w))
    as [| r' | e] eqn:O; try discriminate.
  - intros E. inversion E. repeat split; auto.
  - intros E. inversion E. subst r'.
    destruct (run_end cands year w) as [(e & _ & _ & _ & B) | (tr0 & [rq rep] & T & _ & B)];
      [rewrite O; discriminate | congruence |].
    rewrite O in B. unfold reply_flow in B. cbn [snd] in B.
    destruct rep as [| e | data]; try discriminate.
    destruct data; try discriminate. cbn [on_body] in B.
    destruct (authoritative d); [| discriminate].
    destruct (record_of float_of_str d) as [e | r'] eqn:R; [discriminate |].
    inversion B. subst r'.
    destruct (record_of_fields d r R) as (P & D & I & X & Y).
    split; [exact P |]. split; [exact D |]. right. exists tr0, rq, d.
    unfold record_of in R.
    destruct (rating_of float_of_str (dict_get d (str "imdbRating"))); [discriminate |].
    inversion R. cbn. auto 10.
Qed.

(** X13. An exception leaves the resolver from one of these places only.
    From [int(year)], before any call, when the list has a candidate and the
    year is true but not one [int] takes. Or from the call that ends the
    run, all earlier replies having let the loops go on: the exception the
    request itself raised when that is no RequestException, AttributeError
    when the reply is JSON but not an object, and the error of [float] when
    it is an authoritative object whose rating [float] refuses. *)
Theorem fetch_raises_only (cands : list pystr) (year : value) (w : World) (e : exn) :
  outcome (fetch_omdb_data float_of_str int_of_str http_get cands year w) = inl e ->
  (cands <> [] /\ truthy year = true /\ py_int int_of_str year = inl e
   /\ calls (fetch_omdb_data float_of_str int_of_str http_get cands year w) = [])
  \/ exists tr0 rq rep,
       calls (fetch_omdb_data float_of_str int_of_str http_get cands year w)
       = tr0 ++ [(rq, rep)]
       /\ Forall (fun c => reply_flow float_of_str c = Next) tr0
       /\ reply_ok float_of_str (rq, rep) = false
       /\ match rep with
          | RequestException => False
          | Raised e' => e' = e
          | Json (VDict d) =>
              authoritative d = true
              /\ rating_of float_of_str (dict_get d (str "imdbRating")) = inl e
          | Json _ => e = AttributeError
          end.
Proof.
  rewrite fetch_outcome, fetch_calls.
  destruct (outcome (for_candidates float_of_str int_of_str http_get cands year w))
    as [| r' | e'] eqn:O; try discriminate.
  intros E. inversion E. subst e'.
  destruct (run_end cands year w) as [(e' & Y & NE & C & B) | (tr0 & [rq rep] & T & Q & B)];
    [rewrite O; discriminate | |].
  - left. rewrite O in B. inversion B. subst e'. unfold year_param in Y.
    destruct (truthy year); [| discriminate].
    destruct (py_int int_of_str year) as [e1 | n] eqn:P; [| discriminate].
    inversion Y. auto.
  - right. rewrite O in B. exists tr0, rq, rep. split; [exact T |]. split; [exact Q |].
    unfold reply_flow in B. cbn [snd] in B. unfold reply_ok. cbn [snd].
    destruct rep as [| e' | data]; [discriminate | inversion B; auto |].
    destruct data; cbn [on_body] in B; try (inversion B; auto; fail).
    destruct (authoritative d) eqn:A; [| discriminate].
    unfold record_of in B. unfold rating_ok. cbn [implb].
    destruct (rating_of float_of_str (dict_get d (str "imdbRating"))) as [e' | x] eqn:R;
      [| discriminate].
    inversion B. subst e'. split; [| auto].
    unfold rating_of in R.
    destruct (is_none (dict_get d (str "imdbRating"))
              || is_str (str "N/A") (dict_get d (str "imdbRating")));
      [discriminate |].
    cbn [orb]. destruct (py_float float_of_str (dict_get d (str "imdbRating")));
      [reflexivity | discriminate].
Qed.

Lemma attempts_requests (n : nat) (rq : request) (w : World) :
  Forall (fun c => fst c = rq) (calls (attempts float_of_str http_get n rq w)).
Proof. apply attempts_calls. Qed.

Lemma for_params_requests (ps : list request) (w : World) :
  Forall (fun c => In (fst c) ps) (calls (for_params float_of_str http_get ps w)).
Proof.
  revert w. induction ps as [| rq ps IH]; intros w; cbn [for_params]; [constructor |].
  pose proof (attempts_requests API_RETRIES rq w) as A.
  destruct (attempts float_of_str http_get API_RETRIES rq w) as [[out w1] tr].
  unfold calls in A. cbn [snd] in A.
  assert (Forall (fun c => In (fst c) (rq :: ps)) tr) as A'.
  { eapply Forall_impl; [| exact A]. intros c E. left. symmetry. exact E. }
  destruct out; try exact A'.
  specialize (IH w1). destruct (for_params float_of_str http_get ps w1) as [[out' w2] tr'].
  unfold calls in *. cbn [snd] in *. apply Forall_app. split; [exact A' |].
  eapply Forall_impl; [| exact IH]. intros c I. right. exact I.
Qed.

Lemma for_candidates_requests (cs : list pystr) (year : value) (yo : option Z) (w : World) :
  year_param int_of_str year = inr yo ->
  Forall (fun c => exists cand, In cand cs /\ In (fst c) (pairs cand yo))
         (calls (for_candidates float_of_str int_of_str http_get cs year w)).
Proof.
  intros Y. revert w. induction cs as [| cand cs IH]; intros w; [constructor |].
  rewrite (for_candidates_cons float_of_str int_of_str World http_get cand cs year w yo Y).
  pose proof (for_params_requests (pairs cand yo) w) as A.
  destruct (for_params float_of_str http_get (pairs cand yo) w) as [[out w1] tr].
  unfold calls in A. cbn [snd] in A.
  assert (Forall (fun c => exists cand', In cand' (cand :: cs)
                                         /\ In (fst c) (pairs cand' yo)) tr) as A'.
  { eapply Forall_impl; [| exact A]. intros c I. exists cand. split; [left; reflexivity | exact I]. }
  destruct out; try exact A'.
  specialize (IH w1).
  destruct (for_candidates float_of_str int_of_str http_get cs year w1) as [[out' w2] tr'].
  unfold calls in *. cbn [snd] in *. apply Forall_app. split; [exact A' |].
  eapply Forall_impl; [| exact IH]. intros c (cand' & I & J).
  exists cand'. split; [right; exact I | exact J].
Qed.

(** X14. Whatever the service answers, the resolver asks only for titles of
    its candidate list, and only with the year it was given, as [int] reads
    it, or with none: with none only, when the year is false (None, 0). *)
Theorem fetch_requests (cands : list pystr) (year : value) (w : World) :
  Forall (fun c => In (t (fst c)) cands
                   /\ (y (fst c) = None
                       \/ (truthy year = true
                           /\ exists n, py_int int_of_str year = inr n
                                        /\ y (fst c) = Some n)))
         (calls (fetch_omdb_data float_of_str int_of_str http_get cands year w)).
Proof.
  rewrite fetch_calls.
  destruct (year_param int_of_str year) as [e | yo] eqn:Y.
  { rewrite (proj1 (for_candidates_bad_year float_of_str int_of_str World http_get
                      cands year e w Y)). constructor. }
  eapply Forall_impl; [| apply (for_candidates_requests cands year yo w Y)].
  intros c (cand & I & J). unfold year_param in Y.
  destruct yo as [n |]; cbn [pairs In] in J.
  - destruct (truthy year); [| discriminate].
    destruct (py_int int_of_str year) as [e | m] eqn:P; [discriminate |].
    inversion Y. subst m.
    destruct J as [J | [J | []]]; rewrite <- J; cbn [t y]; eauto 10.
  - destruct J as [J | []]. rewrite <- J. cbn [t y]. auto.
Qed.

End ResolverMore.

Lemma fetch_record_fields_witness :
  outcome (fetch_omdb_data float_rows int_rows scripted [str "A"; str "B"] (VInt 1999)
             [RequestException; miss; hit])
  = inr hit_record
  /\ truthy (plot hit_record) = true /\ truthy (director hit_record) = true
  /\ (hit_record = default
      \/ exists tr0 rq d,
           calls (fetch_omdb_data float_rows int_rows scripted [str "A"; str "B"] (VInt 1999)
                    [RequestException; miss; hit])
           = tr0 ++ [(rq, Json (VDict d))]
           /\ plot hit_record = or_else (dict_get d (str "Plot")) (VStr (str "Not Available"))
           /\ director hit_record
              = or_else (dict_get d (str "Director")) (VStr (str "Unknown"))
           /\ imdb_id hit_record = dict_get d (str "imdbID")
           /\ box_office hit_record = dict_get d (str "BoxOffice")
           /\ runtime hit_record = dict_get d (str "Runtime")).
Proof.
  split; [reflexivity |].
  exact (fetch_record_fields float_rows int_rows (list reply) scripted [str "A"; str "B"]
           (VInt 1999) [RequestException; miss; hit] hit_record eq_refl).
Defined.

Lemma fetch_raises_only_witness :
  outcome (fetch_omdb_data float_rows int_rows scripted [str "A"; str "B"] (VFloat nan)
             [miss; miss])
  = inl ValueError
  /\ ((([str "A"; str "B"] : list pystr) <> [] /\ truthy (VFloat nan) = true
       /\ py_int int_rows (VFloat nan) = inl ValueError
       /\ calls (fetch_omdb_data float_rows int_rows scripted [str "A"; str "B"]
                   (VFloat nan) [miss; miss]) = [])
      \/ exists tr0 rq rep,
           calls (fetch_omdb_data float_rows int_rows scripted [str "A"; str "B"]
                    (VFloat nan) [miss; miss])
           = tr0 ++ [(rq, rep)]
           /\ Forall (fun c => reply_flow float_rows c = Next) tr0
           /\ reply_ok float_rows (rq, rep) = false
           /\ match rep with
              | RequestException => False
              | Raised e' => e' = ValueError
              | Json (VDict d) =>
                  authoritative d = true
                  /\ rating_of float_rows (dict_get d (str "imdbRating")) = inl ValueError
              | Json _ => ValueError = AttributeError
              end).
Proof.
  split; [reflexivity |].
  exact (fetch_raises_only float_rows int_rows (list reply) scripted [str "A"; str "B"]
           (VFloat nan) [miss; miss] ValueError eq_refl).
Defined.

(** The three other ways out: a reply that is JSON but no object, a rating
    that is no numeral, and a request that raises what is no
    RequestException. *)
Example fetch_raises_at_last_call :
  fetch_omdb_data float_rows int_rows scripted [str "A"] VNone
    [RequestException; Json (VList [])]
  = (inl AttributeError, [],
     [(query "A" None, RequestException); (query "A" None, Json (VList []))])
  /\ fetch_omdb_data float_rows int_rows scripted [str "A"] VNone [hit_unrated]
     = (inl ValueError, [], [(query "A" None, hit_unrated)])
  /\ fetch_omdb_data float_rows int_rows scripted [str "A"] VNone [Raised UnicodeEncodeError]
     = (inl UnicodeEncodeError, [], [(query "A" None, Raised UnicodeEncodeError)]).
Proof. repeat split. Qed.
(** * The loaders' helpers *)

Lemma replace_char (c : char) (s : pystr) :
  replace [c] [] s = filter (fun x => negb (c =? x)) s.
Proof.
  unfold replace. induction s as [| x s IH]; [reflexivity |].
  cbn [replace_loop starts_with filter length Nat.sub app].
  rewrite andb_true_r. destruct (c =? x); cbn [negb]; rewrite IH; reflexivity.
Qed.



Lemma char_in_app (c : char) (a b : pystr) :
  char_in c (a ++ b) = char_in c a || char_in c b.
Proof. apply existsb_app. Qed.

Lemma strip_app_all (s w : pystr) : forallb isspace w = true -> strip (s ++ w) = strip s.
Proof.
  intros F. unfold strip, strip_by.
  rewrite <- !lstrip_rstrip, (rstrip_app_all isspace s w F). reflexivity.
Qed.

Lemma strip_twice (s : pystr) : strip (strip s) = strip s.
Proof. destruct (strip_by_ends isspace s) as [L R]. apply strip_by_fixed; assumption. Qed.

Lemma filter_fixed_incl (f : char -> bool) (a b : pystr) :
  incl a (filter f b) -> filter f a = a.
Proof.
  intros I. apply forallb_filter_id, forallb_forall. intros x X.
  apply I, filter_In in X. tauto.
Qed.

Lemma or_none_cases (v : value) :
  (or_none v = VNone \/ truthy (or_none v) = true) /\ or_none (or_none v) = or_none v.
Proof.
  unfold or_none. destruct (truthy v) eqn:T.
  - rewrite T. auto.
  - auto.
Qed.

(** X15. [clean_box_office] on a string drops every "$" and every ",", strips
    the white space at the ends and gives None for what is left empty; on
    any value its result is None or a true value, never an empty string,
    and cleaning a cleaned value changes nothing. *)
Theorem clean_box_office_facts :
  (forall s, clean_box_office (VStr s)
             = or_none (VStr (strip (filter (fun c => negb (char_in c (str "$,"))) s))))
  /\ (forall s r, clean_box_office (VStr s) = VStr r ->
                  r <> [] /\ char_in 0x24 r = false /\ char_in 0x2C r = false
                  /\ strip r = r)
  /\ (forall v, clean_box_office v = VNone \/ truthy (clean_box_office v) = true)
  /\ (forall v, clean_box_office (clean_box_office v) = clean_box_office v).
Proof.
  assert (forall s, clean_box_office (VStr s)
                    = or_none (VStr (strip (filter (fun c => negb (char_in c (str "$,"))) s))))
    as F.
  { intros s. cbn [clean_box_office].
    change (str "$") with [0x24]. change (str ",") with [0x2C].
    rewrite !replace_char. do 3 f_equal.
    induction s as [| c s IH]; [reflexivity |]. cbn [filter char_in existsb str map
      list_ascii_of_string].
    change (N_of_ascii "$") with 0x24. change (N_of_ascii ",") with 0x2C.
    rewrite orb_false_r, (N.eqb_sym c 0x24), (N.eqb_sym c 0x2C).
    destruct (0x24 =? c); cbn [negb orb filter]; [exact IH |].
    destruct (0x2C =? c); cbn [negb]; rewrite IH; reflexivity. }
  assert (forall s r, clean_box_office (VStr s) = VStr r ->
                      r <> [] /\ char_in 0x24 r = false /\ char_in 0x2C r = false
                      /\ strip r = r) as G.
  { intros s r. rewrite F. unfold or_none. cbn [truthy].
    set (k := fun c => negb (char_in c (str "$,"))).
    destruct (nonempty (strip (filter k s))) eqn:NE; [| discriminate].
    intros E. injection E as R. subst r.
    assert (incl (strip (filter k s)) (filter k s)) as I by apply incl_strip_by.
    split; [apply nonempty_true, NE |].
    split; [| split; [| apply strip_twice]];
      apply char_in_none; intros X; apply I, filter_In in X as [_ X]; discriminate. }
  split; [exact F |]. split; [exact G |]. split.
  - intros v. destruct v; cbn [clean_box_office]; apply or_none_cases.
  - intros v. destruct v as [| b | n | f | s | l | d];
      try (cbn [clean_box_office]; unfold or_none;
           match goal with |- context [truthy ?x] => destruct (truthy x) eqn:T end;
           [cbn [clean_box_office]; unfold or_none; rewrite T |]; reflexivity).
    rewrite (F s). set (r := strip (filter (fun c => negb (char_in c (str "$,"))) s)).
    unfold or_none. cbn [truthy]. destruct (nonempty r) eqn:NE; [| reflexivity].
    rewrite (F r).
    rewrite (filter_fixed_incl _ r s) by apply incl_strip_by.
    unfold r at 1. rewrite strip_twice. fold r.
    unfold or_none. cbn [truthy]. rewrite NE. reflexivity.
Qed.

(** The amount of a payload's [BoxOffice] field. *)
Example clean_box_office_amount :
  clean_box_office (VStr (str " $1,234,567 ")) = VStr (str "1234567")
  /\ clean_box_office (VStr (str "$,")) = VNone
  /\ clean_box_office (VStr (str "N/A")) = VStr (str "N/A")
  /\ clean_box_office VNone = VNone.
Proof. repeat split. Qed.



Lemma strip_marks_within (U : unicodedata) (title s : pystr) :
  Forall (unmarked U) (0x20 :: title) -> incl s (0x20 :: title) -> strip_marks U s = s.
Proof.
  intros F I. rewrite Forall_forall in F.
  apply strip_marks_fixed; apply Forall_forall; intros x X; apply (F x (I x X)).
Qed.

(** X17. For a title all of whose characters Unicode leaves alone, as it does
    the space, the title stored by [load_data] is the cleaned title with its
    trailing article moved and its parentheses removed: the last two steps
    of [full_title_clean] find nothing to do. *)
Theorem full_title_clean_unmarked (U : unicodedata) (title : pystr) :
  Forall (unmarked U) (0x20 :: title) ->
  full_title_clean U title
  = remove_parenthetical_alternates (move_trailing_article (base_clean U title)).
Proof.
  intros F. unfold full_title_clean.
  rewrite (strip_marks_within U title _ F).
  - apply removed_tidy.
  - eapply incl_tran; [apply removed_incl |]. apply incl_spaced.
    eapply incl_tran; [apply moved_incl |]. apply incl_spaced, base_clean_incl.
Qed.

Lemma full_title_clean_unmarked_witness :
  Forall (unmarked ucd_rows) (0x20 :: str "Usual   Suspects (uncut), The (1995)")
  /\ full_title_clean ucd_rows (str "Usual   Suspects (uncut), The (1995)")
     = str "The Usual Suspects".
Proof.
  assert (Forall (unmarked ucd_rows) (0x20 :: str "Usual   Suspects (uncut), The (1995)")) as F
    by (repeat constructor).
  split; [exact F |].
  rewrite (full_title_clean_unmarked ucd_rows _ F). reflexivity.
Defined.

(** X18. A cleaned title without comma and without parenthesis has itself for
    first candidate, followed only by its form without diacritics when that
    differs and is not empty, with its white space tidied. *)
Theorem candidates_plain (U : unicodedata) (title : pystr) :
  base_clean U title <> [] ->
  char_in 0x2C (base_clean U title) = false ->
  char_in 0x28 (base_clean U title) = false ->
  generate_title_candidates U title
  = base_clean U title
    :: (if pystr_eqb (strip_marks U (base_clean U title)) (base_clean U title) then []
        else map tidy_whitespace (filter nonempty [strip_marks U (base_clean U title)])).
Proof.
  intros NE C P. rewrite (generate_unfold U title NE).
  set (base := base_clean U title) in *.
  assert (move_trailing_article base = base) as M.
  { unfold move_trailing_article, re_match. rewrite no_article_match by exact C. reflexivity. }
  assert (remove_parenthetical_alternates base = base) as R.
  { unfold remove_parenthetical_alternates, re_sub.
    rewrite (sub_loop_no_match (length base) marked_paren_re).
    - rewrite sub_loop_no_match; [apply base_clean_tidy |].
      intros s1 I. apply no_any_paren_match, (char_in_incl _ _ _ I P).
    - intros s1 I. apply no_marked_paren_match, (char_in_incl _ _ _ I P). }
  assert (extract_parenthetical_alternate base = None) as A.
  { unfold extract_parenthetical_alternate, re_search.
    destruct (search_from (length base) first_paren_re base) as [[rest g] |] eqn:S;
      [| reflexivity].
    destruct (search_first_paren_shape _ _ _ _ S) as [pre [inner [E _]]].
    assert (In 0x28 base) as I by (rewrite E, !in_app_iff; cbn [In]; tauto).
    apply char_in_In in I. rewrite P in I. discriminate. }
  assert (pystr_eqb base base = true) as B by (apply pystr_eqb_eq; reflexivity).
  assert (fold_left add_candidate (variants base) [] = [base]) as L.
  { unfold variants. rewrite M, R, A. cbn [fold_left]. unfold add_candidate.
    cbn [str_in existsb negb andb app orb].
    rewrite (proj2 (nonempty_true base) NE). cbn [str_in existsb negb andb app orb].
    rewrite B. cbn [orb negb existsb]. rewrite B. reflexivity. }
  rewrite L. cbn [fold_left]. unfold add_translit. cbn [str_in existsb]. rewrite orb_false_r.
  destruct (pystr_eqb (strip_marks U base) base); cbn [negb andb app filter map];
    rewrite (proj2 (nonempty_true base) NE); cbn [map]; unfold base;
    rewrite (base_clean_tidy U title); reflexivity.
Qed.

Lemma candidates_plain_witness :
  base_clean ucd_rows (amelie ++ str " (2001)") <> []
  /\ char_in 0x2C (base_clean ucd_rows (amelie ++ str " (2001)")) = false
  /\ char_in 0x28 (base_clean ucd_rows (amelie ++ str " (2001)")) = false
  /\ generate_title_candidates ucd_rows (amelie ++ str " (2001)") = [amelie; str "Amelie"].
Proof.
  split; [discriminate |]. split; [reflexivity |]. split; [reflexivity |].
  exact (candidates_plain ucd_rows (amelie ++ str " (2001)")
           ltac:(discriminate) eq_refl eq_refl).
Defined.

Lemma candidates_unmarked_witness :
  Forall (unmarked ucd_rows) (0x20 :: str "Usual Suspects, The (1995)")
  /\ generate_title_candidates ucd_rows (str "Usual Suspects, The (1995)")
     = [str "The Usual Suspects"; str "Usual Suspects, The"]
  /\ NoDup (generate_title_candidates ucd_rows (str "Usual Suspects, The (1995)"))
  /\ ~ In [] (generate_title_candidates ucd_rows (str "Usual Suspects, The (1995)")).
Proof.
  assert (Forall (unmarked ucd_rows) (0x20 :: str "Usual Suspects, The (1995)")) as F
    by (repeat constructor).
  split; [exact F |].
  destruct (candidates_unmarked ucd_rows _ F) as (E & D & N & _).
  split; [reflexivity |]. split; [exact D | exact N].
Defined.

(** * Fields cut at a separator *)

Lemma split_on_cons (sep : char) (s : pystr) : split_on sep s <> [].
Proof.
  destruct s as [| c s]; [discriminate |]. cbn.
  destruct (c =? sep); [discriminate |]. destruct (split_on sep s); discriminate.
Qed.

Lemma split_on_app (sep : char) (x rest : pystr) :
  char_in sep x = false ->
  split_on sep (x ++ sep :: rest) = x :: split_on sep rest.
Proof.
  unfold char_in. induction x as [| c x IH]; cbn [app split_on existsb].
  - rewrite N.eqb_refl. reflexivity.
  - intros H. apply orb_false_iff in H as [H1 H2].
    rewrite N.eqb_sym, H1, (IH H2). reflexivity.
Qed.

Lemma split_on_last (sep : char) (x : pystr) :
  char_in sep x = false -> split_on sep x = [x].
Proof.
  unfold char_in. induction x as [| c x IH]; [reflexivity |]. cbn [split_on existsb].
  intros H. apply orb_false_iff in H as [H1 H2].
  rewrite N.eqb_sym, H1, (IH H2). reflexivity.
Qed.

Lemma split_on_free (sep : char) (s : pystr) :
  Forall (fun x => char_in sep x = false) (split_on sep s).
Proof.
  induction s as [| c s IH]; [repeat constructor |]. cbn [split_on].
  destruct (N.eqb_spec c sep) as [E | NE]; [constructor; [reflexivity | exact IH] |].
  destruct (split_on sep s) as [| x r]; [repeat constructor; cbn |].
  - rewrite N.eqb_sym. apply N.eqb_neq in NE. rewrite NE. reflexivity.
  - inversion IH as [| ? ? Hx Hr]. constructor; [| exact Hr].
    cbn. rewrite N.eqb_sym. apply N.eqb_neq in NE. rewrite NE. exact Hx.
Qed.

Lemma join_split (sep : char) (s : pystr) : join [sep] (split_on sep s) = s.
Proof.
  induction s as [| c s IH]; [reflexivity |]. cbn [split_on].
  pose proof (split_on_cons sep s) as NE.
  destruct (N.eqb_spec c sep) as [E | D].
  - subst c. cbn [join]. destruct (split_on sep s) as [| x r]; [contradiction |].
    rewrite IH. reflexivity.
  - destruct (split_on sep s) as [| x r]; [contradiction |].
    cbn [join] in *. destruct r as [| x' r]; cbn [app] in *; rewrite <- IH; reflexivity.
Qed.

Lemma split_join (sep : char) (xs : list pystr) :
  xs <> [] -> Forall (fun x => char_in sep x = false) xs ->
  split_on sep (join [sep] xs) = xs.
Proof.
  induction xs as [| x xs IH]; [contradiction |]. intros _ F.
  inversion F as [| ? ? Hx Hr]. subst. destruct xs as [| x' xs].
  - cbn [join]. apply split_on_last, Hx.
  - change (join [sep] (x :: x' :: xs)) with (x ++ sep :: join [sep] (x' :: xs)).
    rewrite (split_on_app sep x _ Hx), IH; [reflexivity | discriminate | exact Hr].
Qed.



Lemma genre_name_spec (g : pystr) :
  genre_name g = true
  <-> g <> [] /\ g <> no_genres /\ strip g = g /\ char_in 0x7C g = false.
Proof.
  unfold genre_name. rewrite !andb_true_iff, !negb_true_iff, nonempty_true, pystr_eqb_eq.
  split; intros H; repeat split; try tauto.
  - intros E. apply pystr_eqb_eq in E. destruct H as [[[_ H] _] _]. congruence.
  - destruct (pystr_eqb g no_genres) eqn:E; [| reflexivity].
    apply pystr_eqb_eq in E. tauto.
Qed.

(** X19. The genre names read from a [genres] field are not empty, are not
    the placeholder "(no genres listed)", have no white space at their ends
    and hold no "|"; and a field written as such names joined by "|" is read
    back as these names, in order and with their repetitions. *)
Theorem genre_names_round_trip :
  (forall genres, forallb genre_name (genre_names genres) = true)
  /\ (forall gs, forallb genre_name gs = true -> genre_names (join (str "|") gs) = gs).
Proof.
  split.
  - intros genres. apply forallb_forall. intros g I. unfold genre_names in I.
    apply filter_In in I as [I K]. apply andb_prop in K as [K1 K2].
    apply in_map_iff in I as (x & E & I).
    apply genre_name_spec. apply negb_true_iff in K2. repeat split.
    + apply nonempty_true, K1.
    + intros F. apply pystr_eqb_eq in F. congruence.
    + rewrite <- E. apply strip_twice.
    + pose proof (split_on_free 0x7C genres) as F. rewrite Forall_forall in F.
      rewrite <- E. exact (char_in_incl _ _ _ (incl_strip_by isspace x) (F x I)).
  - intros gs G. unfold genre_names. change (str "|") with [0x7C].
    destruct gs as [| g0 gs]; [reflexivity |].
    rewrite split_join.
    + rewrite forallb_forall in G.
      assert (map strip (g0 :: gs) = g0 :: gs) as M.
      { rewrite <- (map_id (g0 :: gs)) at 2. apply map_ext_in. intros g I.
        apply (genre_name_spec g), G, I. }
      rewrite M. apply forallb_filter_id, forallb_forall. intros g I.
      destruct (proj1 (genre_name_spec g) (G g I)) as (A & B & _).
      rewrite (proj2 (nonempty_true g) A). cbn [andb]. apply negb_true_iff.
      destruct (pystr_eqb g no_genres) eqn:E; [| reflexivity].
      apply pystr_eqb_eq in E. contradiction.
    + discriminate.
    + apply Forall_forall. intros g I. rewrite forallb_forall in G.
      apply (genre_name_spec g), G, I.
Qed.

Lemma genre_names_round_trip_witness :
  forallb genre_name [str "Adventure"; str "Sci-Fi"; str "Film Noir"] = true
  /\ genre_names (str "Adventure|Sci-Fi|Film Noir")
     = [str "Adventure"; str "Sci-Fi"; str "Film Noir"].
Proof.
  split; [reflexivity |].
  exact (proj2 genre_names_round_trip [str "Adventure"; str "Sci-Fi"; str "Film Noir"] eq_refl).
Defined.

(** What the placeholder, an empty field and stray separators give. *)
Example genre_names_edge :
  genre_names (str "(no genres listed)") = []
  /\ genre_names [] = []
  /\ genre_names (str "Drama| |(no genres listed)|") = [str "Drama"]
  /\ genre_names (str " Drama |Drama") = [str "Drama"; str "Drama"].
Proof. repeat split. Qed.

Lemma statement_spec (s : pystr) :
  statement s = true <-> s <> [] /\ strip s = s /\ char_in 0x3B s = false.
Proof.
  unfold statement. rewrite !andb_true_iff, negb_true_iff, nonempty_true, pystr_eqb_eq.
  tauto.
Qed.

Lemma sql_statements_file (w : pystr) (stmts : list pystr) :
  forallb isspace w = true -> forallb statement stmts = true ->
  map strip (filter (fun s => nonempty (strip s))
               (split_on 0x3B (w ++ flat_map (fun s => s ++ 0x3B :: [0x0A]) stmts)))
  = stmts.
Proof.
  revert w. induction stmts as [| s stmts IH]; intros w W F.
  - cbn [flat_map]. rewrite app_nil_r, split_on_last.
    + cbn [filter]. rewrite <- (app_nil_l w), (strip_app_all [] w W). reflexivity.
    + apply char_in_none. intros I. rewrite forallb_forall in W.
      specialize (W _ I). discriminate.
  - cbn [forallb] in F. apply andb_prop in F as [S F].
    destruct (proj1 (statement_spec s) S) as (NE & ST & SC).
    cbn [flat_map]. rewrite <- app_assoc, app_assoc.
    change ((0x3B :: [0x0A]) ++ ?x) with (0x3B :: ([0x0A] ++ x)).
    rewrite split_on_app.
    + cbn [filter].
      match goal with
      | |- context [nonempty (strip ?x)] => assert (strip x = s) as E
      end.
      { transitivity (strip s); [| exact ST]. unfold strip, strip_by. f_equal.
        exact (lstrip_app_all isspace w s W). }
      rewrite E, (proj2 (nonempty_true s) NE). cbn [map].
      rewrite E. f_equal. exact (IH [0x0A] eq_refl F).
    + rewrite char_in_app, SC, orb_false_r. apply char_in_none. intros I.
      rewrite forallb_forall in W. specialize (W _ I). discriminate.
Qed.

(** X20. The statements of a script are not empty, have no white space at
    their ends and hold no semicolon; and a script that writes such
    statements one after the other, each closed by a semicolon and a line
    break, is read back as these statements, in order. *)
Theorem sql_statements_round_trip :
  (forall sql_script, forallb statement (sql_statements sql_script) = true)
  /\ (forall stmts, forallb statement stmts = true ->
        sql_statements (flat_map (fun s => s ++ str ";" ++ [0x0A]) stmts) = stmts).
Proof.
  split.
  - intros sql_script. apply forallb_forall. intros s I. unfold sql_statements in I.
    apply in_map_iff in I as (x & E & I). apply filter_In in I as [I K].
    apply statement_spec. repeat split.
    + rewrite <- E. apply nonempty_true, K.
    + rewrite <- E. apply strip_twice.
    + pose proof (split_on_free 0x3B sql_script) as F. rewrite Forall_forall in F.
      rewrite <- E. exact (char_in_incl _ _ _ (incl_strip_by isspace x) (F x I)).
  - intros stmts F. unfold sql_statements.
    exact (sql_statements_file [] stmts eq_refl F).
Qed.

Lemma sql_statements_round_trip_witness :
  forallb statement [str "SELECT 1"; str "DELETE FROM ratings"] = true
  /\ sql_statements (str "SELECT 1;" ++ [0x0A] ++ str "DELETE FROM ratings;" ++ [0x0A])
     = [str "SELECT 1"; str "DELETE FROM ratings"].
Proof.
  split; [reflexivity |].
  exact (proj2 sql_statements_round_trip [str "SELECT 1"; str "DELETE FROM ratings"] eq_refl).
Defined.

